(** * Spotify playlist downloader: a shallow embedding of [main.py]

    The development follows the class [SpotifyDownloader] of [main.py]:
    the filename normaliser, the candidate resolver, the track fetcher,
    the audio normaliser, the per-track coordinator, the archive builder
    and the playlist run.  Python text is a sequence of Unicode code
    points; the file system, the clock and the log are an explicit world
    threaded through a small state-and-exception monad; the external
    collaborators (catalog, search, download, transcoder, the operating
    system's transient failures) are read from an environment record. *)

From Stdlib Require Import ZArith NArith List Ascii String Lia.
From Stdlib Require Import DecimalString DecimalZ DecimalPos.
From stdpp Require Import base decidable option list gmap sets finite.

Local Open Scope Z_scope.

(** ** Python text *)

Module PyStr.

(** A Python [str] is a sequence of code points. *)
Abbreviation char := N (only parsing).
Abbreviation pystr := (list N) (only parsing).

(** Literals of the source are written [py "..."]: every character of
    the literal is below U+0100 and stands for its own code point. *)
Definition py (s : string) : pystr :=
  List.map N_of_ascii (list_ascii_of_string s).

(** [str.isspace] for one character, the set used by [str.strip()]. *)
Definition isspace (c : char) : bool :=
  ((9 <=? c) && (c <=? 13) || (28 <=? c) && (c <=? 32)
   || (c =? 133) || (c =? 160) || (c =? 5760)
   || (8192 <=? c) && (c <=? 8202)
   || (c =? 8232) || (c =? 8233) || (c =? 8239) || (c =? 8287)
   || (c =? 12288))%N.

Fixpoint lstrip (s : pystr) : pystr :=
  match s with
  | [] => []
  | c :: s' => if isspace c then lstrip s' else s
  end.

Definition rstrip (s : pystr) : pystr := rev (lstrip (rev s)).

(** [s.strip()] *)
Definition strip (s : pystr) : pystr := rstrip (lstrip s).

(** [str.maketrans(a, b)]: a dictionary from the characters of [a] to
    the characters of [b] at the same index; a later duplicate key
    overrides an earlier one. *)
Definition maketrans (a b : pystr) : gmap N N :=
  fold_left (fun m kv => <[kv.1 := kv.2]> m) (zip a b) ∅.

(** [s.translate(table)] *)
Definition translate (table : gmap N N) (s : pystr) : pystr :=
  List.map (fun c => default c (table !! c)) s.

(** [sep.join(parts)] *)
Fixpoint join (sep : pystr) (parts : list pystr) : pystr :=
  match parts with
  | [] => []
  | [p] => p
  | p :: rest => p ++ sep ++ join sep rest
  end.

(** [prefix in s] at the head of [s]. *)
Fixpoint startswith (s prefix : pystr) : bool :=
  match prefix, s with
  | [], _ => true
  | _ :: _, [] => false
  | p :: prefix', c :: s' => (p =? c)%N && startswith s' prefix'
  end.

(** [sub in s] *)
Fixpoint contains (s sub : pystr) : bool :=
  startswith s sub ||
  match s with
  | [] => false
  | _ :: s' => contains s' sub
  end.

(** [s.split(sep)] for a one-character separator: the pieces between
    the separators, never an empty list. *)
Fixpoint split (sep : char) (s : pystr) : list pystr :=
  match s with
  | [] => [[]]
  | c :: s' =>
      if (c =? sep)%N then [] :: split sep s'
      else match split sep s' with
           | [] => [[c]]
           | p :: ps => (c :: p) :: ps
           end
  end.

(** [str(n)] for an integer, as an f-string prints it. *)
Definition str_of_int (n : Z) : pystr :=
  py (NilZero.string_of_int (Z.to_int n)).

End PyStr.
Export PyStr.

(** ** 4.1 Filename normaliser *)

Definition underscore : N := 95%N.

(** The first argument of [str.maketrans] in [normalize_filename]:
    backslash, slash, full stop, colon, asterisk, question mark, double
    quote, less-than, greater-than, vertical bar. *)
Definition forbidden_chars : pystr :=
  [92; 47; 46; 58; 42; 63; 34; 60; 62; 124]%N.

(** The second argument: ten underscores. *)
Definition replacement_chars : pystr := py "__________".

(** [SpotifyDownloader.normalize_filename] *)
Definition normalize_filename (text : pystr) : pystr :=
  strip (translate (maketrans forbidden_chars replacement_chars) text).

(** The forbidden set as the specification lists it: path separators,
    colon, asterisk, question mark, quote, angle brackets, pipe. *)
Definition spec_forbidden_chars : pystr :=
  [92; 47; 58; 42; 63; 34; 60; 62; 124]%N.

(** The normaliser as the specification words it: every character of the
    listed set becomes an underscore, every other character is kept, and
    the result is trimmed. *)
Definition spec_normalize (set : pystr) (text : pystr) : pystr :=
  strip (List.map (fun c => if bool_decide (c ∈ set) then underscore else c) text).

(** ** Shell-style patterns: [fnmatch.translate] of CPython 3.11, as
    [pathlib] uses it for one path component *)

Module Fnmatch.

(** One element of a bracket expression. *)
Inductive class_item :=
| CChar (c : char)
| CRange (lo hi : char).

Inductive token :=
| TStar                                        (* [*] *)
| TAny                                         (* [?] *)
| TClass (negated : bool) (items : list class_item)   (* [[seq]], [[!seq]] *)
| TLit (c : char).

Definition star : N := 42%N.
Definition qmark : N := 63%N.
Definition lbracket : N := 91%N.
Definition rbracket : N := 93%N.
Definition bang : N := 33%N.
Definition hyphen : N := 45%N.

(** Index of the first [c] in [s]. *)
Fixpoint find_char (c : char) (s : pystr) : option nat :=
  match s with
  | [] => None
  | x :: s' => if (x =? c)%N then Some O else option_map S (find_char c s')
  end.

(** The scan for the closing bracket: with [s] the text after an opening
    bracket, skip a leading [!], then a leading [\]], then run to the
    next [\]].  The answer is the index [j] of that bracket in [s]. *)
Definition class_end (s : pystr) : option nat :=
  let a := match s with c :: _ => if (c =? bang)%N then 1%nat else 0%nat | [] => 0%nat end in
  let b := match nth_error s a with
           | Some c => if (c =? rbracket)%N then S a else a
           | None => a
           end in
  option_map (Nat.add b) (find_char rbracket (skipn b s)).

(** The text between the brackets is cut into chunks at the hyphens that
    stand between two characters: the hyphen cannot be the first
    character (nor the second after a leading [!]), and after a cut the
    next two characters are taken as they are. *)
Fixpoint chunks_from (skip : nat) (cur : pystr) (s : pystr) : list pystr :=
  match s with
  | [] => [cur]
  | c :: s' =>
      match skip with
      | S k => chunks_from k (cur ++ [c]) s'
      | O => if (c =? hyphen)%N then cur :: chunks_from 2 [] s'
             else chunks_from 0 (cur ++ [c]) s'
      end
  end.

(** A cut at the last character leaves an empty last chunk: the hyphen
    goes back to the chunk before it. *)
Definition close_chunks (cs : list pystr) : list pystr :=
  match rev cs with
  | [] :: prev :: before => rev before ++ [prev ++ [hyphen]]
  | _ => cs
  end.

(** "Remove empty ranges": from the right, a range whose lower end is
    above its upper end is dropped with both ends and the two chunks are
    glued together. *)
Fixpoint drop_empty_ranges (cs : list pystr) : list pystr :=
  match cs with
  | [] => []
  | c :: rest =>
      match drop_empty_ranges rest with
      | [] => [c]
      | d :: ds =>
          match List.last (List.map Some c) None, d with
          | Some lo, hi :: d' =>
              if (hi <? lo)%N then (removelast c ++ d') :: ds else c :: d :: ds
          | _, _ => c :: d :: ds
          end
      end
  end.

(** The set as it is handed to the regular-expression engine: characters
    that stand for themselves and the hyphens that join two chunks. *)
Inductive sym :=
| SLit (c : char)
| SDash.

Definition sym_char (x : sym) : char :=
  match x with
  | SLit c => c
  | SDash => hyphen
  end.

Fixpoint join_chunks (cs : list pystr) : list sym :=
  match cs with
  | [] => []
  | [c] => List.map SLit c
  | c :: rest => List.map SLit c ++ SDash :: join_chunks rest
  end.

(** The engine reads the set left to right: an item followed by a joining
    hyphen and another item is a range. *)
Fixpoint set_items (s : list sym) : list class_item :=
  match s with
  | [] => []
  | x :: s' =>
      match s' with
      | SDash :: y :: s'' => CRange (sym_char x) (sym_char y) :: set_items s''
      | [SDash] => [CChar (sym_char x); CChar hyphen]
      | _ => CChar (sym_char x) :: set_items s'
      end
  end.

Definition set_syms (stuff : pystr) : list sym :=
  if bool_decide (hyphen ∈ stuff) then
    let skip := match stuff with
                | c :: _ => if (c =? bang)%N then 2%nat else 1%nat
                | [] => 1%nat
                end in
    join_chunks (drop_empty_ranges (close_chunks (chunks_from skip [] stuff)))
  else List.map SLit stuff.

(** The token of the bracket expression whose text between the brackets
    is [stuff]: the set is negated when what is left after the removal of
    the empty ranges starts with [!]. *)
Definition class_token (stuff : pystr) : token :=
  match set_syms stuff with
  | SLit c :: rest =>
      if (c =? bang)%N then TClass true (set_items rest)
      else TClass false (set_items (SLit c :: rest))
  | syms => TClass false (set_items syms)
  end.

(** The tokens of a pattern.  [skip] counts the characters still to be
    passed over because they belonged to a bracket expression. *)
Fixpoint tokens_from (skip : nat) (pat : pystr) : list token :=
  match pat with
  | [] => []
  | c :: pat' =>
      match skip with
      | S k => tokens_from k pat'
      | O =>
          if (c =? star)%N then TStar :: tokens_from 0 pat'
          else if (c =? qmark)%N then TAny :: tokens_from 0 pat'
          else if (c =? lbracket)%N then
            match class_end pat' with
            | Some j => class_token (firstn j pat') :: tokens_from (S j) pat'
            | None => TLit c :: tokens_from 0 pat'
            end
          else TLit c :: tokens_from 0 pat'
      end
  end.

Definition tokens (pat : pystr) : list token := tokens_from 0 pat.

Definition item_matches (c : char) (it : class_item) : bool :=
  match it with
  | CChar x => (x =? c)%N
  | CRange lo hi => ((lo <=? c) && (c <=? hi))%N
  end.

Definition token_matches (t : token) (c : char) : bool :=
  match t with
  | TStar | TAny => true
  | TLit x => (x =? c)%N
  | TClass negated items => xorb negated (existsb (item_matches c) items)
  end.

(** Full match of a token list against a name, case-sensitively. *)
Fixpoint match_tokens (ts : list token) (s : pystr) : bool :=
  match ts with
  | [] => match s with [] => true | _ => false end
  | TStar :: ts' =>
      (fix try (s : pystr) : bool :=
         match_tokens ts' s ||
         match s with
         | [] => false
         | _ :: s' => try s'
         end) s
  | t :: ts' =>
      match s with
      | [] => false
      | c :: s' => token_matches t c && match_tokens ts' s'
      end
  end.

(** [fnmatch.fnmatchcase(name, pat)] *)
Definition fnmatchcase (name pat : pystr) : bool :=
  match_tokens (tokens pat) name.

End Fnmatch.

(** ** The world the program runs in *)

(** A [pathlib.Path]: the components of the parent directory and the
    final component. *)
Record path := { parent : list (list N); name : list N }.

#[global] Instance path_eq_dec : EqDecision path.
Proof. solve_decision. Defined.

#[global] Instance path_countable : Countable path :=
  inj_countable' (fun p => (parent p, name p))
                 (fun pn => {| parent := pn.1; name := pn.2 |})
                 (fun p => match p with Build_path _ _ => eq_refl end).

(** [p / n] for an [n] without separators; joining the empty string
    gives [p] back. *)
Definition joinpath (p : path) (n : pystr) : path :=
  match n with
  | [] => p
  | _ => {| parent := parent p ++ [name p]; name := n |}
  end.

(** [p.with_name(n)] *)
Definition with_name (p : path) (n : pystr) : path :=
  {| parent := parent p; name := n |}.

(** The components of [p], root first. *)
Definition parts (p : path) : list (list N) := parent p ++ [name p].

(** [q] is [d] or lies below it. *)
Definition under (d q : path) : bool :=
  bool_decide (parts d `prefix_of` parts q).

(** The exceptions the program meets; all derive from [Exception]. *)
Inductive exn :=
| OSError            (* also FileNotFoundError, FileExistsError, PermissionError *)
| ValueError
| TypeError
| TimeoutExpired     (* subprocess.TimeoutExpired *)
| ProviderError.     (* any error raised by spotipy or yt-dlp *)

Inductive level := Debug | Info | Warning | Error.

(** What the program does to the outside, newest first in the trace. *)
Inductive event :=
| ESearch (query : pystr)
| EDownload (url : pystr)
| ETranscode (src dst : path)
| ERename (src dst : path)
| EUnlink (p : path)
| EZipWrite (arcname : pystr)
| ESleep (ms : Z)
| ELog (l : level).

Record world := {
  files : gset path;      (* regular files *)
  dirs : gset path;       (* directories *)
  faults : list bool;     (* the next answers of the operating system:
                             [true] is a transient failure (a lock) *)
  trace : list event
}.

Definition set_files (f : gset path -> gset path) (w : world) : world :=
  {| files := f (files w); dirs := dirs w; faults := faults w; trace := trace w |}.
Definition set_dirs (f : gset path -> gset path) (w : world) : world :=
  {| files := files w; dirs := f (dirs w); faults := faults w; trace := trace w |}.
Definition emit (e : event) (w : world) : world :=
  {| files := files w; dirs := dirs w; faults := faults w; trace := e :: trace w |}.
Definition pop_fault (w : world) : bool * world :=
  (match faults w with b :: _ => b | [] => false end,
   {| files := files w; dirs := dirs w; faults := tl (faults w); trace := trace w |}).

(** ** Computations: state, exceptions, and fuel for the one unbounded loop *)

Inductive outcome (A : Type) :=
| Ok (a : A)
| Raise (e : exn)
| OutOfFuel.
Arguments Ok {A} a.
Arguments Raise {A} e.
Arguments OutOfFuel {A}.

Definition M (A : Type) : Type := world -> outcome A * world.

Definition ret {A} (a : A) : M A := fun w => (Ok a, w).
Definition raise {A} (e : exn) : M A := fun w => (Raise e, w).
Definition bind {A B} (m : M A) (k : A -> M B) : M B :=
  fun w => match m w with
           | (Ok a, w') => k a w'
           | (Raise e, w') => (Raise e, w')
           | (OutOfFuel, w') => (OutOfFuel, w')
           end.

(** [try: body except Exception as e: handler e]; a handler that does not
    cover [e] raises it again. *)
Definition try_except {A} (body : M A) (handler : exn -> M A) : M A :=
  fun w => match body w with
           | (Raise e, w') => handler e w'
           | r => r
           end.

Declare Scope py_scope.
Delimit Scope py_scope with py_monad.
Notation "x <- m ;; k" := (bind m (fun x => k))
  (at level 100, m at next level, right associativity) : py_scope.
Notation "m ;;; k" := (bind m (fun _ => k))
  (at level 100, right associativity) : py_scope.
Local Open Scope py_scope.

Definition modify (f : world -> world) : M unit := fun w => (Ok tt, f w).
Definition gets {A} (f : world -> A) : M A := fun w => (Ok (f w), w).

Definition log (l : level) : M unit := modify (emit (ELog l)).
Definition sleep (ms : Z) : M unit := modify (emit (ESleep ms)).

(** The operating system's answer to the next call that can fail. *)
Definition os_fault : M bool := fun w => let (b, w') := pop_fault w in (Ok b, w').

(** [p.exists()] *)
Definition path_exists (p : path) : M bool :=
  gets (fun w => bool_decide (p ∈ files w) || bool_decide (p ∈ dirs w)).

(** [p.unlink()] *)
Definition unlink (p : path) : M unit :=
  modify (emit (EUnlink p)) ;;;
  locked <- os_fault ;;
  present <- gets (fun w => bool_decide (p ∈ files w)) ;;
  if locked || negb present then raise OSError
  else modify (set_files (fun fs => fs ∖ {[p]})).

(** [src.rename(dst)] for a regular file [src]; on Windows an existing
    target is an error ([FileExistsError]), elsewhere an existing file is
    replaced and an existing directory is an error ([IsADirectoryError]). *)
Definition rename (windows : bool) (src dst : path) : M unit :=
  modify (emit (ERename src dst)) ;;;
  locked <- os_fault ;;
  present <- gets (fun w => bool_decide (src ∈ files w)) ;;
  taken <- gets (fun w => bool_decide (dst ∈ files w) || bool_decide (dst ∈ dirs w)) ;;
  is_dir <- gets (fun w => bool_decide (dst ∈ dirs w)) ;;
  if locked || negb present then raise OSError
  else if bool_decide (src = dst) then ret tt
  else if (taken && windows) || is_dir then raise OSError
  else modify (set_files (fun fs => (fs ∖ {[src]}) ∪ {[dst]})).

(** [list(d.glob(pattern))] for a pattern of one component: the files of
    [d] whose name matches, case-sensitively.  [pathlib] (as of Python
    3.11) refuses a component that contains [**] without being [**].
    Only regular files are listed: the program makes no directory inside
    a playlist directory.  [Path.glob] also lists a directory whose name
    matches, and on Windows it ignores case; both can only add matches
    and are left out here.  A statement that needs the listing to be
    complete assumes that the directory holds no such entry. *)
Definition glob (d : path) (pattern : pystr) : M (list path) :=
  if contains pattern (py "**") then raise ValueError
  else gets (fun w =>
    elements (filter (fun q => parent q = parts d /\
                               Fnmatch.fnmatchcase (name q) pattern = true)
                     (files w))).

(** [p.mkdir(exist_ok=True)] *)
Definition mkdir (p : path) : M unit :=
  locked <- os_fault ;;
  w <- gets id ;;
  let orphan := match parent p with
                | [] => false
                | _ => negb (bool_decide (∃ d, d ∈ dirs w /\ parts d = parent p))
                end in
  if locked || orphan || bool_decide (p ∈ files w) then raise OSError
  else modify (set_dirs (fun ds => ds ∪ {[p]})).

(** [shutil.rmtree(d)]: the files below [d] are removed one by one, then
    the directories; the first failure stops the removal where it is. *)
Fixpoint unlink_all (ps : list path) : M unit :=
  match ps with
  | [] => ret tt
  | p :: rest => unlink p ;;; unlink_all rest
  end.

Definition rmtree (d : path) : M unit :=
  present <- gets (fun w => bool_decide (d ∈ dirs w)) ;;
  if negb present then raise OSError
  else
    victims <- gets (fun w => elements (filter (fun q => under d q = true) (files w))) ;;
    unlink_all victims ;;;
    locked <- os_fault ;;
    if locked then raise OSError
    else modify (set_dirs (filter (fun q => under d q = false))).

(** [zipfile.ZipFile(zp, 'w', ...)]: opening creates (or truncates) the
    archive file at once, in a directory that exists. *)
Definition zip_open (zp : path) : M unit :=
  locked <- os_fault ;;
  blocked <- gets (fun w => bool_decide (zp ∈ dirs w)) ;;
  orphan <- gets (fun w => match parent zp with
                           | [] => false
                           | _ => negb (bool_decide (∃ d, d ∈ dirs w /\ parts d = parent zp))
                           end) ;;
  if locked || blocked || orphan then raise OSError
  else modify (set_files (fun fs => fs ∪ {[zp]})).

(** [zipf.write(src, arcname)] *)
Definition zip_write (src : path) (arcname : pystr) : M unit :=
  locked <- os_fault ;;
  present <- gets (fun w => bool_decide (src ∈ files w)) ;;
  if locked || negb present then raise OSError
  else modify (emit (EZipWrite arcname)).

(** [zipf.close()], run when the [with] block is left *)
Definition zip_close : M unit :=
  locked <- os_fault ;;
  if locked then raise OSError else ret tt.

(** [with zipfile.ZipFile(zp, 'w', ...) as zipf: body]: the archive is
    closed on every way out of the body and an exception of the body is
    raised again after that. *)
Definition with_zipfile (zp : path) (body : M unit) : M unit :=
  zip_open zp ;;;
  pending <- try_except (body ;;; ret None) (fun e => ret (Some e)) ;;
  zip_close ;;;
  match pending with
  | None => ret tt
  | Some e => raise e
  end.

(** ** The external collaborators *)

(** A value stored under a key of a provider's dictionary. *)
Inductive field (A : Type) :=
| Absent             (* the key is not in the dictionary *)
| Null               (* the key is there and holds [None] *)
| Val (a : A).
Arguments Absent {A}.
Arguments Null {A}.
Arguments Val {A} a.

(** One search result: what [x.get('url')] returns and the entry under
    ['duration']. *)
Record entry := { e_url : option (list N); e_duration : field Z }.

Inductive search_outcome :=
| SearchRaises
| SearchReturns (entries : option (list entry)).   (* [None]: no ['entries'] key *)

Inductive download_outcome :=
| DownloadRaises
| DownloadWrites (exts : list (list N)).   (* the files [<template>.<ext>] left behind *)

Inductive ffmpeg_outcome :=
| FfmpegExits (returncode : Z) (wrote : bool)   (* [wrote]: the output file exists afterwards *)
| FfmpegTimeout (wrote : bool)                  (* killed after 60 s *)
| FfmpegSpawnError.                             (* the binary could not be started *)

(** A track of the catalog. *)
Record track := { t_name : list N; t_artists : list (list N); t_duration_ms : Z }.

Record playlist := { pl_name : list N }.

(** One page of [playlist_items]: [item['track']] of every item and
    whether [results['next']] is set. *)
Record page := { items : list (option track); next : bool }.

Record env := {
  hash : list N -> Z;                                 (* the built-in [hash] on [str] *)
  downloads_dir : path;                               (* [DOWNLOADS_DIR] *)
  windows : bool;
  ffmpeg_available : option bool;                     (* [None]: the attribute is not set *)
  normalize_audio_var : option (list N);              (* [os.getenv('NORMALIZE_AUDIO')] *)
  sp_playlist : list N -> option playlist;            (* [None]: the catalog raises *)
  sp_playlist_items : list N -> Z -> option page;     (* by playlist and offset *)
  yt_search : list N -> search_outcome;
  yt_download : list N -> download_outcome;
  ffmpeg : path -> path -> ffmpeg_outcome
}.

(** [s.lower()] on the letters A to Z; no other character lowers to a
    letter of ['true']. *)
Definition lower (s : pystr) : pystr :=
  List.map (fun c => if ((65 <=? c) && (c <=? 90))%N then (c + 32)%N else c) s.

Section Downloader.

Variable E : env.

(** [ydl.extract_info(query, download=False)] *)
Definition extract_info (query : pystr) : M (option (list entry)) :=
  modify (emit (ESearch query)) ;;;
  match yt_search E query with
  | SearchRaises => raise ProviderError
  | SearchReturns entries => ret entries
  end.

(** [ydl.download([url])] with the output template [out / "<stem>.%(ext)s"] *)
Definition ydl_download (url : pystr) (out : path) (stem : pystr) : M unit :=
  modify (emit (EDownload url)) ;;;
  match yt_download E url with
  | DownloadRaises => raise ProviderError
  | DownloadWrites exts =>
      modify (set_files (fun fs =>
        fs ∪ list_to_set (List.map (fun ext => joinpath out (stem ++ py "." ++ ext)) exts)))
  end.

(** [subprocess.run(["ffmpeg", ..., "-i", src, ..., dst], timeout=60)];
    the answer is the return code. *)
Definition run_ffmpeg (src dst : path) : M Z :=
  modify (emit (ETranscode src dst)) ;;;
  match ffmpeg E src dst with
  | FfmpegExits rc wrote =>
      (if wrote then modify (set_files (fun fs => fs ∪ {[dst]})) else ret tt) ;;;
      ret rc
  | FfmpegTimeout wrote =>
      (if wrote then modify (set_files (fun fs => fs ∪ {[dst]})) else ret tt) ;;;
      raise TimeoutExpired
  | FfmpegSpawnError => raise OSError
  end.

(** ** 4.2 Candidate resolver *)

(** [abs(x.get('duration', 0) - duration)] *)
Definition duration_key (duration : Z) (x : entry) : M Z :=
  match e_duration x with
  | Absent => ret (Z.abs (0 - duration))
  | Null => raise TypeError
  | Val d => ret (Z.abs (d - duration))
  end.

(** The loop of the built-in [min(iterable, key=...)]: the running
    minimum is replaced only by a strictly smaller key. *)
Fixpoint min_loop {A} (key : A -> M Z) (best : A) (kbest : Z) (rest : list A) : M A :=
  match rest with
  | [] => ret best
  | x :: rest' =>
      k <- key x ;;
      if k <? kbest then min_loop key x k rest' else min_loop key best kbest rest'
  end.

Definition py_min {A} (key : A -> M Z) (l : list A) : M A :=
  match l with
  | [] => raise ValueError
  | x :: rest => k <- key x ;; min_loop key x k rest
  end.

(** [SpotifyDownloader._get_youtube_url] *)
Definition get_youtube_url (track_name artist_name : pystr) (duration : option Z)
  : M (option (list N)) :=
  try_except
    (let query := firstn 60 (track_name ++ py " " ++ artist_name) in
     results <- extract_info (py "ytsearch2:" ++ query) ;;
     let entries := default [] results in
     match entries with
     | [] => ret None
     | first :: _ =>
         match duration with
         | None | Some 0 => ret (e_url first)
         | Some d =>
             best_match <- py_min (duration_key d) entries ;;
             ret (e_url best_match)
         end
     end)
    (fun _ => log Error ;;; ret None).

(** ** 4.3 Track fetcher *)

(** [f"temp_{hash(url) % 10000}"] *)
Definition temp_filename (url : pystr) : pystr :=
  py "temp_" ++ str_of_int (hash E url mod 10000).

(** The loop [for attempt in range(2)] of [_download_track]; [None] when
    the loop runs out. *)
Fixpoint rename_attempts (attempts : list nat) (temp_file final_path : path)
  : M (option path) :=
  match attempts with
  | [] => ret None
  | _ :: rest =>
      try_except
        (rename (windows E) temp_file final_path ;;; ret (Some final_path))
        (fun e => match e with
                  | OSError => sleep 1000 ;;; rename_attempts rest temp_file final_path
                  | _ => raise e
                  end)
  end.

(** [SpotifyDownloader._download_track] *)
Definition download_track (url : pystr) (output_path : path) (final_filename : pystr)
  : M (option path) :=
  let temp := temp_filename url in
  try_except
    (ydl_download url output_path temp ;;;
     downloaded_files <- glob output_path (temp ++ py "*.mp3") ;;
     match downloaded_files with
     | temp_file :: _ =>
         let final_path := joinpath output_path (final_filename ++ py ".mp3") in
         sleep 500 ;;;
         rename_attempts (seq 0 2) temp_file final_path
     | [] => ret None
     end)
    (fun _ => log Error ;;; ret None).

(** ** 4.4 Normaliser stage *)

(** The loop [for attempt in range(3)] of [_normalize_audio]; [None] when
    the loop runs out without a [return]. *)
Fixpoint swap_attempts (attempts : list nat) (file_path temp_path : path)
  : M (option bool) :=
  match attempts with
  | [] => ret None
  | attempt :: rest =>
      try_except
        (unlink file_path ;;;
         rename (windows E) temp_path file_path ;;;
         log Debug ;;;
         ret (Some true))
        (fun e => match e with
                  | OSError =>
                      if (attempt <? 2)%nat then
                        sleep 1000 ;;; swap_attempts rest file_path temp_path
                      else
                        log Error ;;;
                        left_over <- path_exists temp_path ;;
                        (if left_over then unlink temp_path else ret tt) ;;;
                        ret (Some false)
                  | _ => raise e
                  end)
  end.

(** [SpotifyDownloader._normalize_audio]; the answer [None] is Python's
    [None], returned when the function ends without a [return]. *)
Definition normalize_audio (file_path : path) : M (option bool) :=
  if negb (default false (ffmpeg_available E)) then
    log Debug ;;; ret (Some true)
  else
    let normalize_enabled :=
      bool_decide (lower (default (py "true") (normalize_audio_var E)) = py "true") in
    if negb normalize_enabled then
      log Debug ;;; ret (Some true)
    else
      present <- path_exists file_path ;;
      if negb present then ret (Some false)
      else
        try_except
          (let temp_path := with_name file_path (py "norm_" ++ name file_path) in
           returncode <- run_ffmpeg file_path temp_path ;;
           produced <- path_exists temp_path ;;
           if (returncode =? 0) && produced then
             sleep 1000 ;;;
             swap_attempts (seq 0 3) file_path temp_path
           else
             (if produced then unlink temp_path else ret tt) ;;;
             ret (Some false))
          (fun e => match e with
                    | TimeoutExpired => log Error ;;; ret (Some false)
                    | _ => log Error ;;; ret (Some false)
                    end).

(** ** 4.5 Pipeline coordinator *)

(** [SpotifyDownloader._process_track] *)
Definition process_track (t : track) (playlist_path : path) : M unit :=
  let track_name := normalize_filename (t_name t) in
  let artists := join (py ", ") (t_artists t) in
  let artist_name := normalize_filename artists in
  let final_filename := artist_name ++ py " - " ++ track_name in
  let filename_pattern := py "*" ++ track_name ++ py "*.mp3" in
  existing <- glob playlist_path filename_pattern ;;
  match existing with
  | _ :: _ => log Debug
  | [] =>
      let duration := t_duration_ms t / 1000 in
      youtube_url <- get_youtube_url track_name artist_name (Some duration) ;;
      match youtube_url with
      | None | Some [] => log Warning
      | Some url =>
          log Info ;;;
          downloaded_file <- download_track url playlist_path final_filename ;;
          match downloaded_file with
          | Some f =>
              there <- path_exists f ;;
              if there then
                success <- normalize_audio f ;;
                match success with
                | Some true => log Debug
                | _ => ret tt
                end
              else log Error
          | None => log Error
          end
      end
  end.

(** [SpotifyDownloader._get_all_tracks]; the [while True] loop takes one
    unit of fuel per page. *)
Fixpoint get_all_tracks (fuel : nat) (playlist_id : pystr) (offset : Z)
    (tracks : list track) : M (list track) :=
  match fuel with
  | O => fun w => (OutOfFuel, w)
  | S fuel' =>
      match sp_playlist_items E playlist_id offset with
      | None => raise ProviderError
      | Some results =>
          let tracks := tracks ++ omap id (items results) in
          if negb (next results) then ret tracks
          else get_all_tracks fuel' playlist_id (offset + 100) tracks
      end
  end.

(** The worker pool, one unit after the other in the order of
    submission: a unit's exception is kept in its future.  The executor
    may run up to [MAX_WORKERS] units at once; this is the schedule in
    which they do not overlap. *)
Fixpoint submit_all (units : list (M unit)) : M (list (option exn)) :=
  match units with
  | [] => ret []
  | u :: rest =>
      future <- try_except (u ;;; ret None) (fun e => ret (Some e)) ;;
      futures <- submit_all rest ;;
      ret (future :: futures)
  end.

(** [for future in futures: future.result()] *)
Fixpoint await_all (futures : list (option exn)) : M unit :=
  match futures with
  | [] => ret tt
  | None :: rest => await_all rest
  | Some e :: _ => raise e
  end.

(** ** 4.6 Archive builder *)

Fixpoint zip_write_all (mp3s : list path) : M unit :=
  match mp3s with
  | [] => ret tt
  | file_path :: rest => zip_write file_path (name file_path) ;;; zip_write_all rest
  end.

(** The [with] block of [_create_zip]: every [*.mp3] of the directory is
    added under its base name. *)
Definition write_archive (playlist_path zip_path : path) : M unit :=
  with_zipfile zip_path
    (mp3s <- glob playlist_path (py "*.mp3") ;; zip_write_all mp3s).

(** The body of the [try] of [_create_zip]. *)
Definition create_zip_body (playlist_path zip_path : path) : M unit :=
  write_archive playlist_path zip_path ;;;
  rmtree playlist_path ;;;
  log Info.

(** [SpotifyDownloader._create_zip] *)
Definition create_zip (playlist_path zip_path : path) : M unit :=
  try_except (create_zip_body playlist_path zip_path) (fun _ => log Error).

(** ** The playlist run *)

(** [playlist_url.split("/")[-1].split("?")[0]] *)
Definition playlist_id_of (playlist_url : pystr) : pystr :=
  hd [] (split 63 (List.last (split 47 playlist_url) [])).

(** Everything [download_playlist] does before the archive is built; the
    answer is the playlist directory and the archive path. *)
Definition prepare_playlist (fuel : nat) (playlist_url : pystr) : M (path * path) :=
  let playlist_id := playlist_id_of playlist_url in
  match sp_playlist E playlist_id with
  | None => raise ProviderError
  | Some pl =>
      let playlist_name := normalize_filename (pl_name pl) in
      let playlist_path := joinpath (downloads_dir E) playlist_name in
      mkdir playlist_path ;;;
      log Info ;;;
      tracks <- get_all_tracks fuel playlist_id 0 [] ;;
      log Info ;;;
      futures <- submit_all (List.map (fun t => process_track t playlist_path) tracks) ;;
      await_all futures ;;;
      ret (playlist_path, joinpath (downloads_dir E) (playlist_name ++ py ".zip"))
  end.

(** [SpotifyDownloader.download_playlist] *)
Definition download_playlist (fuel : nat) (playlist_url : pystr) : M (option path) :=
  try_except
    (pz <- prepare_playlist fuel playlist_url ;;
     create_zip pz.1 pz.2 ;;;
     ret (Some pz.2))
    (fun _ => log Error ;;; ret None).

End Downloader.

(** ** Vocabulary of the statements *)

(** The search the resolver sends for a track. *)
Definition search_query (track_name artist_name : pystr) : pystr :=
  py "ytsearch2:" ++ firstn 60 (track_name ++ py " " ++ artist_name).

(** The duration of a candidate with a missing duration counted as 0. *)
Definition observed_duration (x : entry) : Z :=
  match e_duration x with
  | Val d => d
  | Absent | Null => 0
  end.

Definition distance (d : Z) (x : entry) : Z := Z.abs (observed_duration x - d).

Definition is_rename (e : event) : bool :=
  match e with ERename _ _ => true | _ => false end.
Definition is_pause (ms : Z) (e : event) : bool :=
  match e with ESleep d => d =? ms | _ => false end.
Definition is_fetch (e : event) : bool :=
  match e with ESearch _ | EDownload _ => true | _ => false end.

(** Rename attempts, pauses of [ms] milliseconds, and provider calls in a
    stretch of the trace. *)
Definition renames (tr : list event) : nat := length (List.filter is_rename tr).
Definition pauses (ms : Z) (tr : list event) : nat := length (List.filter (is_pause ms) tr).
Definition fetches (tr : list event) : list event := List.filter is_fetch tr.

(** A character that stands for itself in a pattern. *)
Definition plain (c : N) : Prop :=
  c <> Fnmatch.star /\ c <> Fnmatch.qmark /\ c <> Fnmatch.lbracket.

(** The worlds [w] and [w'] differ at most in the file [zp]. *)
Definition archive_only (zp : path) (w w' : world) : Prop :=
  dirs w' = dirs w /\ forall q, q <> zp -> (q ∈ files w' <-> q ∈ files w).

(** ** Concrete runs *)

Module Scenario.

Definition downloads : path := {| parent := []; name := py "Downloads_playlists" |}.
Definition mix : path := joinpath downloads (py "Mix").
Definition mix_zip : path := joinpath downloads (py "Mix.zip").
Definition playlist_url : list N := py "https://open.spotify.com/playlist/37i9dQ?si=abc".

(** An environment in which every collaborator gives one fixed answer;
    FFmpeg is installed and normalisation is left enabled. *)
Definition make_env (catalog : option playlist) (tracks : list track)
    (search : search_outcome) (dl : download_outcome) (ff : ffmpeg_outcome) : env :=
  {| hash := fun _ => 1234;
     downloads_dir := downloads;
     windows := true;
     ffmpeg_available := Some true;
     normalize_audio_var := None;
     sp_playlist := fun _ => catalog;
     sp_playlist_items := fun _ _ => Some {| items := List.map Some tracks; next := false |};
     yt_search := fun _ => search;
     yt_download := fun _ => dl;
     ffmpeg := fun _ _ => ff |}.

(** A playlist directory that holds the given files. *)
Definition mix_with (names : list (list N)) (os : list bool) : world :=
  {| files := list_to_set (List.map (joinpath mix) names);
     dirs := {[ downloads; mix ]};
     faults := os;
     trace := [] |}.

Definition exact_match : entry :=
  {| e_url := Some (py "https://youtu.be/exact"); e_duration := Val 200 |}.
Definition live_stream : entry :=
  {| e_url := Some (py "https://youtu.be/live"); e_duration := Null |}.

Definition song : track :=
  {| t_name := py "Song"; t_artists := [py "Artist"]; t_duration_ms := 200000 |}.
Definition intro_live : track :=
  {| t_name := py "Intro [Live]"; t_artists := [py "X"]; t_duration_ms := 200000 |}.
Definition three : track :=
  {| t_name := py "3"; t_artists := [py "Britney Spears"]; t_duration_ms := 213000 |}.

Definition E_ok : env :=
  make_env (Some {| pl_name := py "Mix" |}) []
           (SearchReturns (Some [exact_match])) (DownloadWrites [py "mp3"])
           (FfmpegExits 0 true).
Definition E_null_duration : env :=
  make_env (Some {| pl_name := py "Mix" |}) [song]
           (SearchReturns (Some [live_stream; exact_match])) (DownloadWrites [py "mp3"])
           (FfmpegExits 0 true).
Definition E_timeout : env :=
  make_env (Some {| pl_name := py "Mix" |}) [song]
           (SearchReturns (Some [exact_match])) (DownloadWrites [py "mp3"])
           (FfmpegTimeout true).
Definition E_no_playlist : env :=
  make_env None [] (SearchReturns (Some [exact_match])) (DownloadWrites [py "mp3"])
           (FfmpegExits 0 true).

End Scenario.

(** ** More vocabulary *)

(** The worlds [w] and [w'] have the same directories and differ at most
    in the files listed in [ps]. *)
Definition same_outside (ps : list path) (w w' : world) : Prop :=
  dirs w' = dirs w /\ forall q, q ∉ ps -> (q ∈ files w' <-> q ∈ files w).

(** A decimal digit. *)
Definition digit (c : N) : Prop := (48 <= c <= 57)%N.

(** The ways the swap loop of [_normalize_audio] can end. *)
Definition swap_result (attempts : list nat) (f t : path) (w' : world)
    (r : outcome (option bool)) : Prop :=
  (r = Ok (Some true) /\ f ∈ files w' /\ t ∉ files w')
  \/ r = Ok (Some false)
  \/ r = Raise OSError
  \/ (r = Ok None /\ Forall (fun a => (a < 2)%nat) attempts).


(** Both switches of the normaliser stage are on: FFmpeg was found and
    [NORMALIZE_AUDIO] is unset or spells [true] in any case. *)
Definition normalization_on (E : env) : bool :=
  default false (ffmpeg_available E)
  && bool_decide (lower (default (py "true") (normalize_audio_var E)) = py "true").

(** The sibling [norm_<name>] of a file. *)
Definition norm_path (p : path) : path := with_name p (py "norm_" ++ name p).

(** A track whose title normalises to the empty string. *)
Definition blank_title (t : track) : bool :=
  bool_decide (normalize_filename (t_name t) = []).

(** A computation that does not depend on fuel. *)
Definition fuel_free {A} (m : M A) : Prop := forall w, fst (m w) <> OutOfFuel.

(** A name that ends in [.mp3] in any letter case, such as [a.MP3]. *)
Definition mp3_any_case (n : pystr) : bool :=
  Fnmatch.fnmatchcase (lower n) (py "*.mp3").

(** The directory that is to hold [p] exists. *)
Definition parent_exists (p : path) (w : world) : Prop :=
  parent p = [] \/ exists d, d ∈ dirs w /\ parts d = parent p.

(** An entry, file or directory, directly in the directory [d]. *)
Definition entry_of (d : path) (w : world) (q : path) : Prop :=
  (q ∈ files w \/ q ∈ dirs w) /\ parent q = parts d.

(** ** System setup: [SystemSetup] and [SpotifyDownloader._setup_system] *)

Module Setup.

Inductive installer := Winget | Scoop | Chocolatey.

(** The commands handed to [subprocess.run]. *)
Inductive command :=
| FfmpegVersion                      (* [ffmpeg -version], timeout 10 s *)
| InstallFfmpeg (by_ : installer)    (* [winget install FFmpeg ...], [scoop install ffmpeg],
                                        [choco install ffmpeg -y]; timeout 300 s *)
| PipUpgradeYtdlp                    (* [python -m pip install --upgrade yt-dlp] *)
| YtdlpSelfUpdate.                   (* [yt-dlp -U] *)

(** What one [subprocess.run] does. *)
Inductive run_outcome :=
| Exits (returncode : Z)
| TimesOut                           (* raises [subprocess.TimeoutExpired] *)
| NotFound                           (* raises [FileNotFoundError] *)
| Fails.                             (* raises another exception, such as [PermissionError] *)

Inductive error := TimeoutExpired | FileNotFoundError | OtherError.

Inductive action :=
| Run (c : command)
| RefreshPath (read : bool)          (* [read]: the registry could be read and PATH was set *)
| Pause (seconds : Z)
| Say (l : level).

(** The machine the program is started on: what a command does, given
    everything done before it, and whether the registry can be read. *)
Record host := {
  respond : list action -> command -> run_outcome;
  registry_readable : list action -> bool
}.

Record machine := {
  done : list action;                          (* newest first *)
  normalize_audio_env : option (list N);       (* [os.environ['NORMALIZE_AUDIO']] *)
  ffmpeg_attr : option bool                    (* [self.ffmpeg_available] *)
}.

Inductive result (A : Type) :=
| Done (a : A)
| Throws (e : error).
Arguments Done {A} a.
Arguments Throws {A} e.

Definition S (A : Type) : Type := machine -> result A * machine.

Definition ret {A} (a : A) : S A := fun m => (Done a, m).
Definition throw {A} (e : error) : S A := fun m => (Throws e, m).
Definition bind {A B} (c : S A) (k : A -> S B) : S B :=
  fun m => match c m with
           | (Done a, m') => k a m'
           | (Throws e, m') => (Throws e, m')
           end.
Definition try_except {A} (body : S A) (handler : error -> S A) : S A :=
  fun m => match body m with
           | (Throws e, m') => handler e m'
           | r => r
           end.

Declare Scope setup_scope.
Delimit Scope setup_scope with setup.
Notation "x <- c ;; k" := (bind c (fun x => k))
  (at level 100, c at next level, right associativity) : setup_scope.
Notation "c ;;; k" := (bind c (fun _ => k))
  (at level 100, right associativity) : setup_scope.
Local Open Scope setup_scope.

Definition act (a : action) : S unit :=
  fun m => (Done tt, {| done := a :: done m;
                        normalize_audio_env := normalize_audio_env m;
                        ffmpeg_attr := ffmpeg_attr m |}).

Definition say (l : level) : S unit := act (Say l).

Section OnHost.

Variable H : host.

(** [subprocess.run(command, ...)]; the answer is the return code. *)
Definition run (c : command) : S Z :=
  fun m =>
    match respond H (done m) c with
    | Exits rc => bind (act (Run c)) (fun _ => ret rc) m
    | TimesOut => bind (act (Run c)) (fun _ => throw TimeoutExpired) m
    | NotFound => bind (act (Run c)) (fun _ => throw FileNotFoundError) m
    | Fails => bind (act (Run c)) (fun _ => throw OtherError) m
    end.

(** [SystemSetup.refresh_environment_path] *)
Definition refresh_environment_path : S bool :=
  fun m =>
    if registry_readable H (done m)
    then (act (RefreshPath true) ;;; say Info ;;; ret true) m
    else (act (RefreshPath false) ;;; say Debug ;;; ret false) m.

(** The loop [for attempt in range(max_retries)] of
    [verify_ffmpeg_with_retry]. *)
Fixpoint verify_attempts (max_retries delay : Z) (attempts : list nat) : S bool :=
  match attempts with
  | [] => ret false
  | attempt :: rest =>
      verified <-
        try_except
          (returncode <- run FfmpegVersion ;;
           if returncode =? 0 then say Info ;;; ret true else ret false)
          (fun e => match e with
                    | TimeoutExpired | FileNotFoundError => ret false
                    | OtherError => throw e
                    end) ;;
      if (verified : bool) then ret true
      else
        (if Z.of_nat attempt <? max_retries - 1 then
           say Info ;;; refresh_environment_path ;;; act (Pause delay)
         else ret tt) ;;;
        verify_attempts max_retries delay rest
  end.

(** [SystemSetup.verify_ffmpeg_with_retry(max_retries=3, delay=2)] *)
Definition verify_ffmpeg_with_retry (max_retries delay : Z) : S bool :=
  verify_attempts max_retries delay (seq 0 (Z.to_nat max_retries)).

(** The loop over [install_methods] of [check_and_install_ffmpeg]. *)
Fixpoint install_attempts (methods : list installer) : S bool :=
  match methods with
  | [] => say Error ;;; ret false
  | method :: rest =>
      installed <-
        try_except
          (say Info ;;;
           returncode <- run (InstallFfmpeg method) ;;
           if returncode =? 0 then
             say Info ;;; say Info ;;;
             verified <- verify_ffmpeg_with_retry 3 2 ;;
             if (verified : bool) then say Info ;;; ret true
             else say Warning ;;; ret false
           else ret false)
          (fun e => match e with
                    | TimeoutExpired | FileNotFoundError => say Debug ;;; ret false
                    | OtherError => throw e
                    end) ;;
      if (installed : bool) then ret true else install_attempts rest
  end.

(** [SystemSetup.check_and_install_ffmpeg] *)
Definition check_and_install_ffmpeg : S bool :=
  say Info ;;;
  present <- verify_ffmpeg_with_retry 1 2 ;;
  if (present : bool) then say Info ;;; ret true
  else say Warning ;;; install_attempts [Winget; Scoop; Chocolatey].

(** [SystemSetup.update_ytdlp] *)
Definition update_ytdlp : S bool :=
  say Info ;;;
  by_pip <-
    try_except
      (returncode <- run PipUpgradeYtdlp ;;
       if returncode =? 0 then say Info ;;; ret true else say Debug ;;; ret false)
      (fun _ => say Debug ;;; ret false) ;;
  if (by_pip : bool) then ret true
  else
    by_itself <-
      try_except
        (returncode <- run YtdlpSelfUpdate ;;
         if returncode =? 0 then say Info ;;; ret true else say Debug ;;; ret false)
        (fun e => match e with
                  | TimeoutExpired | FileNotFoundError => say Debug ;;; ret false
                  | OtherError => throw e
                  end) ;;
    if (by_itself : bool) then ret true else say Warning ;;; ret false.

(** [SpotifyDownloader._setup_system] *)
Definition setup_system : S unit :=
  update_ytdlp ;;;
  available <- check_and_install_ffmpeg ;;
  (fun m => (Done tt, {| done := done m;
                         normalize_audio_env := normalize_audio_env m;
                         ffmpeg_attr := Some available |})) ;;;
  if (available : bool) then ret tt
  else
    say Warning ;;;
    (fun m => (Done tt, {| done := done m;
                           normalize_audio_env := Some (py "false");
                           ffmpeg_attr := ffmpeg_attr m |})).

End OnHost.

(** The downloader's environment once the machine is set up: the two
    switches the normaliser stage reads. *)
Definition configured (E : env) (m : machine) : env :=
  {| hash := hash E;
     downloads_dir := downloads_dir E;
     windows := windows E;
     ffmpeg_available := ffmpeg_attr m;
     normalize_audio_var := normalize_audio_env m;
     sp_playlist := sp_playlist E;
     sp_playlist_items := sp_playlist_items E;
     yt_search := yt_search E;
     yt_download := yt_download E;
     ffmpeg := ffmpeg E |}.

(** Commands run, version probes and sleeps in a stretch of what was done. *)
Definition is_run (a : action) : bool :=
  match a with Run _ => true | _ => false end.
Definition is_probe (a : action) : bool :=
  match a with Run FfmpegVersion => true | _ => false end.
Definition is_sleep (a : action) : bool :=
  match a with Pause _ => true | _ => false end.
Definition runs (tr : list action) : list action := List.filter is_run tr.
Definition probes (tr : list action) : nat := length (List.filter is_probe tr).
Definition sleeps (tr : list action) : nat := length (List.filter is_sleep tr).

(** The installers started in a stretch of what was done, newest first. *)
Definition installs (tr : list action) : list installer :=
  omap (fun a => match a with Run (InstallFfmpeg i) => Some i | _ => None end) tr.

(** The last command run on the way from [m] to [m'] was [c], and it exited
    with 0. *)
Definition succeeded_last (H : host) (c : command) (m m' : machine) : Prop :=
  exists before after,
    done m' = after ++ Run c :: before ++ done m
    /\ respond H (before ++ done m) c = Exits 0
    /\ runs after = [].

(** The last command run on the way from [m] to [m'] was a version probe
    that exited with 0. *)
Definition verified_between (H : host) (m m' : machine) : Prop :=
  succeeded_last H FfmpegVersion m m'.

(** [m'] is [m] after the actions [new], newest first; nothing else has
    changed. *)
Definition extends (new : list action) (m m' : machine) : Prop :=
  done m' = new ++ done m
  /\ normalize_audio_env m' = normalize_audio_env m
  /\ ffmpeg_attr m' = ffmpeg_attr m.

(** Machines for the examples. *)

(** Nothing is installed and there is no registry: every command is missing. *)
Definition bare : host :=
  {| respond := fun _ _ => NotFound; registry_readable := fun _ => false |}.

Definition is_refreshed (a : action) : bool :=
  match a with RefreshPath true => true | _ => false end.
Definition is_winget (a : action) : bool :=
  match a with Run (InstallFfmpeg Winget) => true | _ => false end.

(** A Windows machine with winget and without ffmpeg: winget installs it,
    and it is found once PATH has been read again; pip is broken, the
    self-update works. *)
Definition with_winget : host :=
  {| respond := fun before c =>
       match c with
       | FfmpegVersion =>
           if existsb is_winget before && existsb is_refreshed before
           then Exits 0 else NotFound
       | InstallFfmpeg Winget => Exits 0
       | InstallFfmpeg _ => NotFound
       | PipUpgradeYtdlp => Exits 1
       | YtdlpSelfUpdate => Exits 0
       end;
     registry_readable := fun _ => true |}.

(** Everything is installed and up to date. *)
Definition ready : host :=
  {| respond := fun _ _ => Exits 0; registry_readable := fun _ => true |}.

(** The process at its start. *)
Definition fresh : machine :=
  {| done := []; normalize_audio_env := None; ffmpeg_attr := None |}.

End Setup.

(** ** More concrete runs *)

Module Example.

Import Scenario.

(** Two locators whose hashes are 12 and 123. *)
Definition first_url : list N := py "https://youtu.be/first".
Definition second_url : list N := py "https://youtu.be/second".

Definition E_prefix_hashes : env :=
  {| hash := fun u => if bool_decide (u = first_url) then 12 else 123;
     downloads_dir := downloads;
     windows := true;
     ffmpeg_available := Some true;
     normalize_audio_var := None;
     sp_playlist := fun _ => Some {| pl_name := py "Mix" |};
     sp_playlist_items := fun _ _ => Some {| items := []; next := false |};
     yt_search := fun _ => SearchReturns (Some [exact_match]);
     yt_download := fun _ => DownloadWrites [py "mp3"];
     ffmpeg := fun _ _ => FfmpegExits 0 true |}.

(** FFmpeg was not found at start-up. *)
Definition E_no_ffmpeg : env :=
  {| hash := fun _ => 1234;
     downloads_dir := downloads;
     windows := true;
     ffmpeg_available := Some false;
     normalize_audio_var := Some (py "false");
     sp_playlist := fun _ => Some {| pl_name := py "Mix" |};
     sp_playlist_items := fun _ _ => Some {| items := [Some song]; next := false |};
     yt_search := fun _ => SearchReturns (Some [exact_match]);
     yt_download := fun _ => DownloadWrites [py "mp3"];
     ffmpeg := fun _ _ => FfmpegSpawnError |}.

(** The download leaves a [.webm] file: the conversion did not happen. *)
Definition E_webm : env :=
  make_env (Some {| pl_name := py "Mix" |}) [song]
           (SearchReturns (Some [exact_match])) (DownloadWrites [py "webm"])
           (FfmpegExits 0 true).

(** The search finds nothing. *)
Definition E_no_results : env :=
  make_env (Some {| pl_name := py "Mix" |}) [song]
           (SearchReturns (Some [])) (DownloadWrites [py "mp3"])
           (FfmpegExits 0 true).

(** The catalog knows the playlist and fails to list its items. *)
Definition E_listing_fails : env :=
  {| hash := fun _ => 1234;
     downloads_dir := downloads;
     windows := true;
     ffmpeg_available := Some true;
     normalize_audio_var := None;
     sp_playlist := fun _ => Some {| pl_name := py "Mix" |};
     sp_playlist_items := fun _ _ => None;
     yt_search := fun _ => SearchReturns (Some [exact_match]);
     yt_download := fun _ => DownloadWrites [py "mp3"];
     ffmpeg := fun _ _ => FfmpegExits 0 true |}.

(** A track and a playlist whose names are blank. *)
Definition untitled : track :=
  {| t_name := py "  "; t_artists := [py "Artist"]; t_duration_ms := 200000 |}.
Definition unnamed : playlist := {| pl_name := py " " |}.

(** The downloads directory before a run, holding an older archive. *)
Definition start : world :=
  {| files := {[ joinpath downloads (py "Old.zip") ]};
     dirs := {[ downloads ]};
     faults := [];
     trace := [] |}.

(** The download of [first_url] fails without an exception ([ignoreerrors]
    is set) and leaves no file; its temporary name is [temp_12], that of
    every other locator [temp_123]. *)
Definition E_quiet_failure : env :=
  {| hash := fun u => if bool_decide (u = first_url) then 12 else 123;
     downloads_dir := downloads;
     windows := true;
     ffmpeg_available := Some true;
     normalize_audio_var := None;
     sp_playlist := fun _ => Some {| pl_name := py "Mix" |};
     sp_playlist_items := fun _ _ => Some {| items := []; next := false |};
     yt_search := fun _ => SearchReturns (Some [exact_match]);
     yt_download := fun u => if bool_decide (u = first_url) then DownloadWrites []
                             else DownloadWrites [py "mp3"];
     ffmpeg := fun _ _ => FfmpegExits 0 true |}.

(** A playlist of five items on three pages; two items have no track. *)
Definition page_one : page := {| items := [Some song; None]; next := true |}.
Definition page_two : page := {| items := [Some intro_live]; next := true |}.
Definition page_three : page := {| items := [None; Some three]; next := false |}.

Definition E_three_pages : env :=
  {| hash := fun _ => 1234;
     downloads_dir := downloads;
     windows := true;
     ffmpeg_available := Some true;
     normalize_audio_var := None;
     sp_playlist := fun _ => Some {| pl_name := py "Mix" |};
     sp_playlist_items := fun _ offset =>
       if offset =? 0 then Some page_one
       else if offset =? 100 then Some page_two
       else if offset =? 200 then Some page_three
       else None;
     yt_search := fun _ => SearchReturns (Some [exact_match]);
     yt_download := fun _ => DownloadWrites [py "mp3"];
     ffmpeg := fun _ _ => FfmpegExits 0 true |}.

End Example.

(** * Properties *)

Local Open Scope py_scope.

(** Runs the monadic plumbing of a computation applied to a world. *)
Ltac mrun :=
  cbv beta iota zeta delta
    [bind try_except ret raise modify gets log sleep default from_option id fst snd].

(** Reads the fields of a world that was built by the primitives. *)
Ltac wsimpl :=
  cbn [emit set_files set_dirs files dirs trace faults orb negb andb tl].

(** Membership in a set built with union, difference and singletons. *)
Ltac in_set :=
  repeat first [rewrite elem_of_union | rewrite elem_of_difference
               | rewrite elem_of_singleton];
  intuition congruence.

(** ** Filename normaliser *)

Section Normalizer.

Lemma translate_char (c : N) :
  default c (maketrans forbidden_chars replacement_chars !! c)
  = if bool_decide (c ∈ forbidden_chars) then underscore else c.
Proof.
  case_bool_decide as Hin.
  - unfold forbidden_chars in Hin.
    repeat (apply elem_of_cons in Hin as [-> | Hin]; [vm_compute; reflexivity|]).
    by apply elem_of_nil in Hin.
  - unfold maketrans.
    change replacement_chars with (replicate 10 underscore).
    unfold forbidden_chars in *. cbn [zip zip_with replicate fold_left fst snd].
    rewrite !lookup_insert_ne, lookup_empty; [reflexivity | ..];
      intros <-; apply Hin; rewrite !elem_of_cons; tauto.
Qed.

Lemma translate_spec (text : list N) :
  translate (maketrans forbidden_chars replacement_chars) text
  = List.map (fun c => if bool_decide (c ∈ forbidden_chars) then underscore else c) text.
Proof. unfold translate. apply map_ext. intros c. apply translate_char. Qed.

Lemma underscore_allowed : underscore ∉ forbidden_chars.
Proof.
  intros Hu. unfold forbidden_chars in Hu.
  repeat (apply elem_of_cons in Hu as [Hu | Hu]; [discriminate Hu|]).
  by apply elem_of_nil in Hu.
Qed.

Lemma lstrip_idem s : lstrip (lstrip s) = lstrip s.
Proof.
  induction s as [|c s IH]; [reflexivity|].
  cbn. destruct (isspace c) eqn:Hc; [exact IH|]. cbn. by rewrite Hc.
Qed.

Lemma lstrip_snoc s c : isspace c = false -> lstrip (s ++ [c]) = lstrip s ++ [c].
Proof.
  intros Hc. induction s as [|x s IH]; cbn.
  - by rewrite Hc.
  - destruct (isspace x); [exact IH | reflexivity].
Qed.

Lemma rstrip_idem s : rstrip (rstrip s) = rstrip s.
Proof. unfold rstrip. by rewrite rev_involutive, lstrip_idem. Qed.

Lemma lstrip_head s :
  match lstrip s with [] => True | c :: _ => isspace c = false end.
Proof.
  induction s as [|x s IH]; cbn; [done|].
  destruct (isspace x) eqn:Hx; [exact IH | exact Hx].
Qed.

Lemma lstrip_rstrip_head c s :
  isspace c = false -> lstrip (rstrip (c :: s)) = rstrip (c :: s).
Proof.
  intros Hc. unfold rstrip. cbn [rev].
  rewrite lstrip_snoc by done. rewrite rev_app_distr. cbn. by rewrite Hc.
Qed.

Lemma strip_idem s : strip (strip s) = strip s.
Proof.
  unfold strip. pose proof (lstrip_head s) as Hh.
  destruct (lstrip s) as [|c u] eqn:Hu; [reflexivity|].
  rewrite lstrip_rstrip_head by done. apply rstrip_idem.
Qed.

Lemma lstrip_subseteq s : lstrip s ⊆ s.
Proof.
  induction s as [|x s IH]; cbn; [done|].
  destruct (isspace x); [|done]. intros c Hc. right. by apply IH.
Qed.

Lemma strip_subseteq s : strip s ⊆ s.
Proof.
  unfold strip, rstrip. intros c Hc.
  apply lstrip_subseteq. apply list_elem_of_In, in_rev in Hc.
  apply list_elem_of_In, lstrip_subseteq, list_elem_of_In in Hc.
  by apply list_elem_of_In, in_rev.
Qed.

Lemma translate_clean text c :
  c ∈ translate (maketrans forbidden_chars replacement_chars) text ->
  c ∉ forbidden_chars.
Proof.
  rewrite translate_spec. intros Hc.
  apply list_elem_of_In, in_map_iff in Hc as (x & Hx & _).
  case_bool_decide as Hin; subst; [apply underscore_allowed | done].
Qed.

Lemma translate_id text :
  (forall c, c ∈ text -> c ∉ forbidden_chars) ->
  translate (maketrans forbidden_chars replacement_chars) text = text.
Proof.
  intros H. rewrite translate_spec.
  induction text as [|x text IH]; [reflexivity|]. cbn.
  rewrite bool_decide_eq_false_2 by (apply H; left).
  f_equal. apply IH. intros c Hc. apply H. by right.
Qed.

Lemma normalize_filename_clean text c :
  c ∈ normalize_filename text -> c ∉ forbidden_chars.
Proof. intros Hc. apply strip_subseteq in Hc. by apply translate_clean in Hc. Qed.

(** C6, as the code has it: for every text, [normalize_filename] replaces
    each character of the translation table's key set (the listed
    characters and also the full stop) by an underscore, keeps every
    other character and trims the result; the result holds none of these
    characters, and normalising twice is normalising once. *)
Theorem normalize_filename_spec (text : list N) :
  normalize_filename text = spec_normalize forbidden_chars text
  /\ (forall c, c ∈ normalize_filename text -> c ∉ forbidden_chars)
  /\ normalize_filename (normalize_filename text) = normalize_filename text.
Proof.
  split; [|split].
  - unfold normalize_filename, spec_normalize. by rewrite translate_spec.
  - apply normalize_filename_clean.
  - unfold normalize_filename at 1.
    rewrite translate_id by apply normalize_filename_clean.
    unfold normalize_filename. apply strip_idem.
Qed.

(** C6, as the specification lists the forbidden set (without the full
    stop): the text [a.b] is a counterexample, its full stop is replaced. *)
Lemma normalize_filename_full_stop :
  normalize_filename (py "a.b") = py "a_b"
  /\ normalize_filename (py "a.b") <> spec_normalize spec_forbidden_chars (py "a.b").
Proof. split; [vm_compute; reflexivity | vm_compute; discriminate]. Qed.

End Normalizer.


(** ** Temporary names of the track fetcher *)

Section TempNames.

Variable E : env.

Lemma py_inj s1 s2 : py s1 = py s2 -> s1 = s2.
Proof.
  unfold py. intros H.
  rewrite <- (string_of_list_ascii_of_string s1), <- (string_of_list_ascii_of_string s2).
  f_equal. revert H. generalize (list_ascii_of_string s1) (list_ascii_of_string s2).
  induction l as [|a l IH]; intros [|b l'] H; try discriminate; [reflexivity|].
  injection H as Hab Hl. f_equal; [|by apply IH].
  rewrite <- (ascii_N_embedding a), <- (ascii_N_embedding b). by rewrite Hab.
Qed.

Lemma to_int_proper z : Z.to_int z <> Decimal.Pos Decimal.Nil /\ Z.to_int z <> Decimal.Neg Decimal.Nil.
Proof.
  destruct z as [|p|p]; cbn; split; try discriminate;
    intros [= H]; by apply Unsigned.to_uint_nonnil in H.
Qed.

Lemma str_of_int_inj a b : str_of_int a = str_of_int b -> a = b.
Proof.
  unfold str_of_int. intros H%py_inj.
  apply DecimalZ.to_int_inj.
  destruct (to_int_proper a), (to_int_proper b).
  apply (f_equal NilZero.int_of_string) in H.
  rewrite !NilZero.isi in H by done. by injection H.
Qed.

(** C3, as the code has it: two locators get the same temporary name
    exactly when their hashes agree modulo 10000, so the names of two
    distinct locators differ if and only if the residues of their hashes
    differ. *)
Theorem temp_filename_eq_iff (u1 u2 : list N) :
  temp_filename E u1 = temp_filename E u2
  <-> hash E u1 mod 10000 = hash E u2 mod 10000.
Proof.
  unfold temp_filename. split.
  - intros H. apply app_inv_head in H. by apply str_of_int_inj.
  - by intros ->.
Qed.

Lemma temp_filename_not_injective :
  exists u1 u2 : list N, u1 <> u2 /\ temp_filename E u1 = temp_filename E u2.
Proof.
  pose (f := fun i : nat => Z.to_nat (hash E (replicate i 97%N) mod 10000)).
  destruct (nat_pigeonhole f (Z.to_nat 10001) (Z.to_nat 10000)) as (i1 & i2 & Hlt & Heq).
  - lia.
  - intros i _. unfold f. pose proof (Z.mod_pos_bound (hash E (replicate i 97%N)) 10000). lia.
  - exists (replicate i1 97%N), (replicate i2 97%N). split.
    + intros H. apply (f_equal length) in H. rewrite !length_replicate in H. lia.
    + apply temp_filename_eq_iff. unfold f in Heq.
      pose proof (Z.mod_pos_bound (hash E (replicate i1 97%N)) 10000).
      pose proof (Z.mod_pos_bound (hash E (replicate i2 97%N)) 10000). lia.
Qed.

End TempNames.

(** C3, as stated, fails for every hash function: there is no
    environment in which distinct locators always get distinct temporary
    names, since only 10000 names exist. *)
Lemma temp_filename_collision :
  ~ exists E : env, forall u1 u2 : list N, u1 <> u2 -> temp_filename E u1 <> temp_filename E u2.
Proof.
  intros [E H]. destruct (temp_filename_not_injective E) as (u1 & u2 & Hne & Heq).
  exact (H u1 u2 Hne Heq).
Qed.

(** ** Candidate resolver *)

Section Resolver.

Variable E : env.

Lemma duration_key_typed d x w :
  e_duration x <> Null -> duration_key d x w = (Ok (distance d x), w).
Proof.
  unfold duration_key, distance, observed_duration.
  destruct (e_duration x); [reflexivity | congruence | reflexivity].
Qed.

Lemma min_loop_first_minimum d (rest : list entry) :
  forall (pre : list entry) best mid w,
    Forall (fun x => e_duration x <> Null) rest ->
    Forall (fun x => distance d best < distance d x) pre ->
    Forall (fun x => distance d best <= distance d x) mid ->
    exists pre' b post',
      pre ++ best :: mid ++ rest = pre' ++ b :: post'
      /\ min_loop (duration_key d) best (distance d best) rest w = (Ok b, w)
      /\ Forall (fun x => distance d b < distance d x) pre'
      /\ Forall (fun x => distance d b <= distance d x) post'.
Proof.
  induction rest as [|x rest IH]; intros pre best mid w Hty Hpre Hmid.
  - exists pre, best, mid. rewrite app_nil_r. by repeat split.
  - apply Forall_cons in Hty as [Hx Hty].
    cbn [min_loop]. mrun. rewrite duration_key_typed by done.
    destruct (distance d x <? distance d best) eqn:Hlt.
    + apply Z.ltb_lt in Hlt.
      destruct (IH (pre ++ best :: mid) x [] w Hty) as (pre' & b & post' & Heq & Hrun & H1 & H2).
      * apply Forall_app; split; [|apply Forall_cons; split].
        -- eapply Forall_impl; [exact Hpre|]. cbn. intros; lia.
        -- lia.
        -- eapply Forall_impl; [exact Hmid|]. cbn. intros; lia.
      * constructor.
      * exists pre', b, post'. repeat split; try done.
        rewrite <- Heq. cbn. by rewrite <- !app_assoc.
    + apply Z.ltb_ge in Hlt.
      destruct (IH pre best (mid ++ [x]) w Hty Hpre) as (pre' & b & post' & Heq & Hrun & H1 & H2).
      * apply Forall_app; split; [done|]. by repeat constructor.
      * exists pre', b, post'. repeat split; try done.
        rewrite <- Heq. by rewrite <- !app_assoc.
Qed.

(** X4: For a positive target duration and a non-empty list of search
    entries none of which carries a None duration, _get_youtube_url returns
    the 'url' of the first entry at minimal distance |duration - target|, an
    entry without the key counting as 0: every earlier entry is strictly
    farther and every later one is at least as far. *)
Lemma get_youtube_url_closest (track_name artist_name : list N) (d : Z) (w : world)
    (entries : list entry) :
  yt_search E (search_query track_name artist_name) = SearchReturns (Some entries) ->
  entries <> [] ->
  0 < d ->
  Forall (fun x => e_duration x <> Null) entries ->
  exists pre best post,
    entries = pre ++ best :: post
    /\ fst (get_youtube_url E track_name artist_name (Some d) w) = Ok (e_url best)
    /\ Forall (fun x => distance d best < distance d x) pre
    /\ Forall (fun x => distance d best <= distance d x) post.
Proof.
  intros Hsearch Hne Hd Hty.
  destruct entries as [|first rest]; [done|].
  apply Forall_cons in Hty as [Hfirst Hrest].
  destruct (min_loop_first_minimum d rest [] first [] (emit (ESearch (search_query track_name artist_name)) w) Hrest)
    as (pre & best & post & Heq & Hrun & H1 & H2); [constructor | constructor |].
  exists pre, best, post. repeat split; try done.
  unfold get_youtube_url, extract_info. mrun.
  fold (search_query track_name artist_name). rewrite Hsearch. mrun.
  destruct d as [|p|p]; try lia.
  cbn [py_min]. mrun. rewrite duration_key_typed by done.
  by rewrite Hrun.
Qed.

(** C8: when the search returns a non-empty candidate list and the target
    duration is absent or 0, the resolver answers the locator of the first
    candidate, whatever the durations of the candidates are. *)
Theorem get_youtube_url_unknown_duration (track_name artist_name : list N)
    (duration : option Z) (w : world) (first : entry) (rest : list entry) :
  yt_search E (search_query track_name artist_name) = SearchReturns (Some (first :: rest)) ->
  duration = None \/ duration = Some 0 ->
  get_youtube_url E track_name artist_name duration w
  = (Ok (e_url first), emit (ESearch (search_query track_name artist_name)) w).
Proof.
  intros Hsearch Hd.
  unfold get_youtube_url, extract_info. mrun.
  fold (search_query track_name artist_name). rewrite Hsearch. mrun.
  by destruct Hd as [-> | ->].
Qed.

End Resolver.

(** C8 at a concrete search: two candidates, target duration 0. *)
Lemma get_youtube_url_unknown_duration_witness :
  get_youtube_url Scenario.E_null_duration (py "Song") (py "Artist") (Some 0)
    (Scenario.mix_with [] [])
  = (Ok (Some (py "https://youtu.be/live")),
     emit (ESearch (py "ytsearch2:Song Artist")) (Scenario.mix_with [] [])).
Proof.
  apply (get_youtube_url_unknown_duration Scenario.E_null_duration (py "Song") (py "Artist")
           (Some 0) (Scenario.mix_with [] []) Scenario.live_stream [Scenario.exact_match]).
  - reflexivity.
  - right. reflexivity.
Defined.

(** C5 at a candidate list the search provider really returns: the first
    candidate is a live stream whose ['duration'] is [None], the second
    has exactly the target duration of 200 s.  The subtraction raises
    [TypeError], the resolver logs it and answers [None] instead of the
    second candidate. *)
Theorem get_youtube_url_null_duration :
  fst (get_youtube_url Scenario.E_null_duration (py "Song") (py "Artist") (Some 200)
         (Scenario.mix_with [] [])) = Ok None
  /\ distance 200 Scenario.exact_match = 0
  /\ distance 200 Scenario.live_stream = 200.
Proof. by vm_compute. Qed.


(** ** Track fetcher *)

Section Fetcher.

Variable E : env.

Lemma rename_cases win src dst w :
  exists w',
    ((rename win src dst w = (Ok tt, w') /\ dst ∈ files w')
     \/ (rename win src dst w = (Raise OSError, w') /\ files w' = files w))
    /\ trace w' = ERename src dst :: trace w /\ dirs w' = dirs w.
Proof.
  unfold rename, os_fault, pop_fault. mrun. cbn [files dirs trace faults emit].
  destruct (match faults w with [] => false | b :: _ => b end); cbn [orb].
  { eexists; split; [right; split; reflexivity | split; reflexivity]. }
  case_bool_decide as Hsrc; cbn [negb].
  2:{ eexists; split; [right; split; reflexivity | split; reflexivity]. }
  case_bool_decide as Heq.
  { subst dst. eexists; split; [left; split; [reflexivity | exact Hsrc] | split; reflexivity]. }
  destruct (_ && win || _).
  { eexists; split; [right; split; reflexivity | split; reflexivity]. }
  eexists; split; [left; split; [reflexivity | cbn; set_solver] | split; reflexivity].
Qed.

Lemma rename_attempts_cases (attempts : list nat) temp_file final_path :
  forall w, exists r w' new,
    rename_attempts E attempts temp_file final_path w = (Ok r, w')
    /\ trace w' = new ++ trace w
    /\ dirs w' = dirs w
    /\ (renames new <= length attempts)%nat
    /\ match r with
       | Some p => p = final_path /\ p ∈ files w'
       | None => renames new = length attempts /\ pauses 1000 new = length attempts
                 /\ files w' = files w
       end.
Proof.
  induction attempts as [|a attempts IH]; intros w.
  - exists None, w, []. cbn. by repeat split.
  - cbn [rename_attempts]. mrun.
    destruct (rename_cases (windows E) temp_file final_path w)
      as (w1 & [[Hrun Hin] | [Hrun Hfiles]] & Htr & Hd); rewrite Hrun.
    + exists (Some final_path), w1, [ERename temp_file final_path].
      repeat split; try done. cbn. lia.
    + destruct (IH (emit (ESleep 1000) w1)) as (r & w2 & new & Hrun2 & Htr2 & Hd2 & Hle & Hr).
      rewrite Hrun2.
      exists r, w2, (new ++ [ESleep 1000; ERename temp_file final_path]).
      assert (Hren : renames (new ++ [ESleep 1000; ERename temp_file final_path]) = S (renames new)).
      { unfold renames. rewrite List.filter_app, length_app. cbn. lia. }
      assert (Hpau : pauses 1000 (new ++ [ESleep 1000; ERename temp_file final_path]) = S (pauses 1000 new)).
      { unfold pauses. rewrite List.filter_app, length_app. cbn. lia. }
      repeat split.
      * rewrite Htr2. cbn. rewrite Htr. by rewrite <- app_assoc.
      * by rewrite Hd2.
      * rewrite Hren. cbn. lia.
      * destruct r as [p|]; [done|]. destruct Hr as (H1 & H2 & H3).
        rewrite Hren, Hpau, H1, H2, H3. by cbn.
Qed.

(** What holds of every run of [_download_track]: it returns normally; it
    answers the final path, which then exists, or [None], and [None] only
    after a download error, when no temporary file was found, or when
    the rename attempts were used up; it renames at most twice, and a
    given-up unit has paused 1 s after each of its two attempts. *)
Theorem download_track_total (url : list N) (output_path : path) (final_filename : list N)
    (w : world) :
  exists r w' new,
    download_track E url output_path final_filename w = (Ok r, w')
    /\ trace w' = new ++ trace w
    /\ (renames new <= 2)%nat
    /\ match r with
       | Some p => p = joinpath output_path (final_filename ++ py ".mp3") /\ p ∈ files w'
       | None =>
           yt_download E url = DownloadRaises
           \/ (forall f fs w1,
                 glob output_path (temp_filename E url ++ py "*.mp3")
                      (snd (ydl_download E url output_path (temp_filename E url) w))
                 <> (Ok (f :: fs), w1))
           \/ (renames new = 2%nat /\ pauses 1000 new = 2%nat)
       end.
Proof.
  unfold download_track, ydl_download. mrun.
  destruct (yt_download E url) as [|exts] eqn:Hdl.
  { exists None, (emit (ELog Error) (emit (EDownload url) w)), [ELog Error; EDownload url].
    repeat split; cbn; try lia. by left. }
  set (w1 := set_files _ _).
  destruct (glob output_path (temp_filename E url ++ py "*.mp3") w1) as [[[|f fs]|e|] w2] eqn:Hglob.
  - exists None, w2, [EDownload url].
    assert (w2 = w1) as ->.
    { unfold glob in Hglob. destruct (contains _ _); [discriminate|]. unfold gets in Hglob. congruence. }
    repeat split; cbn; try lia. right; left. intros f fs w3. congruence.
  - assert (w2 = w1) as ->.
    { unfold glob in Hglob. destruct (contains _ _); [discriminate|]. unfold gets in Hglob. congruence. }
    destruct (rename_attempts_cases (seq 0 2) f
                (joinpath output_path (final_filename ++ py ".mp3"))
                (emit (ESleep 500) w1))
      as (r & w3 & new & Hrun & Htr & _ & Hle & Hr).
    rewrite Hrun. exists r, w3, (new ++ [ESleep 500; EDownload url]).
    assert (Hren : renames (new ++ [ESleep 500; EDownload url]) = renames new).
    { unfold renames. rewrite List.filter_app, length_app. cbn. lia. }
    assert (Hpau : pauses 1000 (new ++ [ESleep 500; EDownload url]) = pauses 1000 new).
    { unfold pauses. rewrite List.filter_app, length_app. cbn. lia. }
    repeat split.
    + rewrite Htr. cbn. by rewrite <- app_assoc.
    + rewrite Hren. exact Hle.
    + destruct r as [p|]; [done|]. right; right.
      rewrite Hren, Hpau. destruct Hr as (H1 & H2 & _). by rewrite H1, H2.
  - assert (w2 = w1) as ->.
    { unfold glob in Hglob. destruct (contains _ _); [unfold raise in Hglob; congruence|].
      unfold gets in Hglob. congruence. }
    exists None, (emit (ELog Error) w1), [ELog Error; EDownload url].
    repeat split; cbn; try lia. right; left. intros f fs w3. congruence.
  - unfold glob in Hglob. destruct (contains _ _); [unfold raise in Hglob; congruence|].
    unfold gets in Hglob. congruence.
Qed.

End Fetcher.

(** C4: the code breaks the claim at this run.  The download of the
    locator fails without an exception and writes nothing; its temporary
    name is [temp_12], and the directory holds [temp_123.mp3], the
    finished download of another worker.  The pattern [temp_12*.mp3]
    lists that file: [_download_track] renames it to the final name and
    answers the final path, where the claim says [None] after a download
    error. *)
Theorem download_track_renames_foreign_file :
  let w := Scenario.mix_with [py "temp_123.mp3"] [] in
  let final_path := joinpath Scenario.mix (py "Artist - Song.mp3") in
  let run := download_track Example.E_quiet_failure Example.first_url Scenario.mix
               (py "Artist - Song") w in
  yt_download Example.E_quiet_failure Example.first_url = DownloadWrites []
  /\ temp_filename Example.E_quiet_failure Example.first_url = py "temp_12"
  /\ files (snd (ydl_download Example.E_quiet_failure Example.first_url Scenario.mix
                   (temp_filename Example.E_quiet_failure Example.first_url) w)) = files w
  /\ fst run = Ok (Some final_path)
  /\ final_path ∈ files (snd run)
  /\ joinpath Scenario.mix (py "temp_123.mp3") ∉ files (snd run).
Proof.
  repeat split; try (vm_compute; reflexivity);
    apply (bool_decide_unpack _); vm_compute; exact I.
Qed.

(** ** Pipeline coordinator *)

Section Patterns.

Import Fnmatch.

Lemma tokens_plain (s rest : list N) :
  Forall plain s ->
  tokens_from 0 (s ++ rest) = List.map TLit s ++ tokens_from 0 rest.
Proof.
  induction 1 as [|c s (Hs & Hq & Hb) _ IH]; [reflexivity|].
  cbn [app tokens_from List.map].
  rewrite (proj2 (N.eqb_neq c star)), (proj2 (N.eqb_neq c qmark)),
    (proj2 (N.eqb_neq c lbracket)) by done.
  by rewrite IH.
Qed.

Lemma match_star_unfold ts s :
  match_tokens (TStar :: ts) s
  = match_tokens ts s || match s with [] => false | _ :: s' => match_tokens (TStar :: ts) s' end.
Proof. by destruct s. Qed.

Lemma match_star_skip ts pre s :
  match_tokens ts s = true -> match_tokens (TStar :: ts) (pre ++ s) = true.
Proof.
  intros H. induction pre as [|c pre IH].
  - rewrite match_star_unfold. cbn [app]. by rewrite H.
  - rewrite match_star_unfold. cbn [app]. rewrite IH. apply orb_true_r.
Qed.

Lemma match_literals lits ts s :
  match_tokens (List.map TLit lits ++ ts) (lits ++ s) = match_tokens ts s.
Proof.
  induction lits as [|c lits IH]; [reflexivity|].
  cbn [List.map app match_tokens token_matches]. by rewrite N.eqb_refl, IH.
Qed.

(** A name that holds the plain text [title] somewhere before its final
    [.mp3] matches [*title*.mp3]. *)
Lemma fnmatch_title (title pre mid : list N) :
  Forall plain title ->
  fnmatchcase (pre ++ title ++ mid ++ py ".mp3") (py "*" ++ title ++ py "*.mp3") = true.
Proof.
  intros Hplain. unfold fnmatchcase, tokens.
  change (py "*") with [star]. cbn [app tokens_from]. rewrite N.eqb_refl.
  rewrite tokens_plain by done.
  change (tokens_from 0 (py "*.mp3")) with (TStar :: List.map TLit (py ".mp3")).
  apply match_star_skip. rewrite match_literals.
  apply match_star_skip.
  by vm_compute.
Qed.

Lemma no_double_star (title : list N) :
  Forall plain title -> title <> [] ->
  contains (py "*" ++ title ++ py "*.mp3") (py "**") = false.
Proof.
  intros Hplain Hne.
  assert (Htail : contains (title ++ py "*.mp3") (py "**") = false).
  { clear Hne. induction Hplain as [|c s (Hs & _) _ IH]; [by vm_compute|].
    cbn [app contains]. rewrite IH, orb_false_r.
    change (py "**") with [star; star]. cbn [startswith].
    by rewrite (proj2 (N.eqb_neq star c)). }
  change (py "*") with [star]. cbn [app contains]. rewrite Htail, orb_false_r.
  destruct Hplain as [|c s (Hs & _) _]; [done|].
  change (py "**") with [star; star]. cbn [app startswith].
  rewrite (proj2 (N.eqb_neq star c)) by done. by rewrite andb_false_r.
Qed.

Lemma normalized_plain (text : list N) :
  lbracket ∉ normalize_filename text -> Forall plain (normalize_filename text).
Proof.
  intros Hb. apply Forall_forall. intros c Hc.
  pose proof (normalize_filename_clean text c Hc) as Hclean.
  repeat split; intros ->.
  - apply Hclean. unfold forbidden_chars, star. rewrite !elem_of_cons. tauto.
  - apply Hclean. unfold forbidden_chars, qmark. rewrite !elem_of_cons. tauto.
  - done.
Qed.

End Patterns.

Section Coordinator.

Variable E : env.

(** C10, as the code has it: for a track whose normalised title holds no
    opening bracket, if some file of the output directory is named
    [<anything><title><anything>.mp3] (the title occurs before the final
    [.mp3], whatever the artist), then [_process_track] neither resolves
    nor fetches: it logs and returns, or, for an empty title, the glob
    raises [ValueError] before anything is done. *)
Theorem process_track_skips_on_title_match (t : track) (playlist_path : path) (w : world)
    (f : path) (pre mid : list N) :
  Fnmatch.lbracket ∉ normalize_filename (t_name t) ->
  f ∈ files w ->
  parent f = parts playlist_path ->
  name f = pre ++ normalize_filename (t_name t) ++ mid ++ py ".mp3" ->
  process_track E t playlist_path w = (Ok tt, emit (ELog Debug) w)
  \/ (normalize_filename (t_name t) = []
      /\ process_track E t playlist_path w = (Raise ValueError, w)).
Proof.
  intros Hb Hf Hparent Hname.
  pose proof (normalized_plain _ Hb) as Hplain.
  unfold process_track. set (title := normalize_filename (t_name t)) in *.
  unfold glob. mrun.
  destruct title as [|c title'] eqn:Htitle.
  { right. split; [reflexivity|]. by vm_compute. }
  left. rewrite <- Htitle in *.
  rewrite no_double_star by (done || by rewrite Htitle).
  destruct (elements _) as [|q qs] eqn:Hel; [|reflexivity].
  exfalso.
  assert (Hin : f ∈ filter (λ q : path, parent q = parts playlist_path /\
             Fnmatch.fnmatchcase (name q) (py "*" ++ title ++ py "*.mp3") = true) (files w)).
  { apply elem_of_filter. repeat split; try done. rewrite Hname. by apply fnmatch_title. }
  apply elem_of_elements in Hin. rewrite Hel in Hin. by apply elem_of_nil in Hin.
Qed.

End Coordinator.


(** C10 at a concrete directory: the file of another artist's song of the
    same title makes the coordinator skip the track. *)
Lemma process_track_skips_on_title_match_witness :
  let hello := {| t_name := py "Hello"; t_artists := [py "Lionel Richie"];
                  t_duration_ms := 250000 |} in
  let w := Scenario.mix_with [py "Adele - Hello.mp3"] [] in
  process_track Scenario.E_ok hello Scenario.mix w = (Ok tt, emit (ELog Debug) w)
  \/ (normalize_filename (t_name hello) = []
      /\ process_track Scenario.E_ok hello Scenario.mix w = (Raise ValueError, w)).
Proof.
  intros hello w.
  apply (process_track_skips_on_title_match Scenario.E_ok hello Scenario.mix w
           (joinpath Scenario.mix (py "Adele - Hello.mp3")) (py "Adele - ") []).
  - apply (bool_decide_unpack _). vm_compute. exact I.
  - apply (bool_decide_unpack _). vm_compute. exact I.
  - reflexivity.
  - reflexivity.
Defined.

(** C10, as stated, fails: the title [3] is a substring of the file name
    [Adele - Hello.mp3] (in its extension), yet the pattern [*3*.mp3] does
    not match it and the track is searched and downloaded. *)
Lemma process_track_substring_not_skipped :
  let w := Scenario.mix_with [py "Adele - Hello.mp3"] [] in
  contains (py "Adele - Hello.mp3") (normalize_filename (t_name Scenario.three)) = true
  /\ fetches (trace (snd (process_track Scenario.E_ok Scenario.three Scenario.mix w)))
     = [EDownload (py "https://youtu.be/exact"); ESearch (py "ytsearch2:3 Britney Spears")].
Proof. by vm_compute. Qed.

(** C7 at a re-run: the directory already holds [X - Intro [Live].mp3],
    the file of the track [Intro [Live]] by [X]; the pattern
    [*Intro [Live]*.mp3] reads [[Live]] as a set of characters, does not
    match that name, and the track is searched and downloaded again. *)
Theorem process_track_bracket_title_refetched :
  let w := Scenario.mix_with [py "X - Intro [Live].mp3"] [] in
  joinpath Scenario.mix
    (normalize_filename (join (py ", ") (t_artists Scenario.intro_live)) ++ py " - "
     ++ normalize_filename (t_name Scenario.intro_live) ++ py ".mp3") ∈ files w
  /\ fst (glob Scenario.mix (py "*Intro [Live]*.mp3") w) = Ok []
  /\ fetches (trace (snd (process_track Scenario.E_ok Scenario.intro_live Scenario.mix w)))
     = [EDownload (py "https://youtu.be/exact"); ESearch (py "ytsearch2:Intro [Live] X")].
Proof.
  split; [|by vm_compute].
  apply (bool_decide_unpack _). vm_compute. exact I.
Qed.

(** ** Normaliser stage *)

Section Stage.

Variable E : env.

Lemma norm_name_fresh (p : path) : with_name p (py "norm_" ++ name p) <> p.
Proof.
  intros H. apply (f_equal name) in H. unfold with_name in H. cbn [name] in H.
  apply (f_equal length) in H. rewrite length_app in H.
  change (length (py "norm_")) with 5%nat in H. lia.
Qed.

(** What C1 says does hold on the exits that involve neither the timeout
    nor an operating-system failure: if the file exists, no [norm_] file
    is in the way, FFmpeg exits by itself and no file operation fails,
    then after the stage the file is at its path and the temporary file
    is gone. *)
Lemma normalize_audio_one_copy (file_path : path) (w : world) :
  let temp_path := with_name file_path (py "norm_" ++ name file_path) in
  file_path ∈ files w -> file_path ∉ dirs w ->
  temp_path ∉ files w -> temp_path ∉ dirs w ->
  faults w = [] ->
  (exists rc wrote, ffmpeg E file_path temp_path = FfmpegExits rc wrote) ->
  exists r w', normalize_audio E file_path w = (Ok (Some r), w')
    /\ file_path ∈ files w' /\ temp_path ∉ files w'.
Proof.
  intros temp_path Hf Hfd Ht Htd Hfaults (rc & wrote & Hff).
  pose proof (norm_name_fresh file_path) as Hne. fold temp_path in Hne.
  unfold normalize_audio.
  destruct (negb _). { mrun. eexists _, _. split; [reflexivity|]. by cbn. }
  destruct (negb _). { mrun. eexists _, _. split; [reflexivity|]. by cbn. }
  unfold path_exists, run_ffmpeg. fold temp_path. mrun. rewrite Hff.
  cbn [emit files dirs trace faults].
  rewrite (bool_decide_eq_true_2 _ Hf). cbn [orb negb].
  destruct wrote; mrun; cbn [emit set_files files dirs trace faults];
    rewrite (bool_decide_eq_false_2 _ Htd), !orb_false_r.
  - rewrite bool_decide_eq_true_2 by in_set.
    destruct (rc =? 0); cbn [andb].
    + cbn [seq swap_attempts]. unfold unlink, rename, os_fault, pop_fault, path_exists.
      mrun. wsimpl. rewrite Hfaults. wsimpl.
      rewrite (bool_decide_eq_true_2 (file_path ∈ _)) by in_set. wsimpl.
      rewrite (bool_decide_eq_true_2 (temp_path ∈ _)) by in_set. wsimpl.
      rewrite (bool_decide_eq_false_2 (temp_path = file_path)) by done.
      rewrite (bool_decide_eq_false_2 (file_path ∈ _ ∖ _)) by in_set.
      rewrite (bool_decide_eq_false_2 (file_path ∈ dirs w)) by done. wsimpl.
      eexists _, _. split; [reflexivity|]. wsimpl. in_set.
    + unfold unlink, os_fault, pop_fault. mrun. wsimpl. rewrite Hfaults. wsimpl.
      rewrite (bool_decide_eq_true_2 (temp_path ∈ _)) by in_set. wsimpl.
      eexists _, _. split; [reflexivity|]. wsimpl. in_set.
  - rewrite (bool_decide_eq_false_2 _ Ht). rewrite andb_false_r.
    eexists _, _. split; [reflexivity|]. by cbn.
Qed.

End Stage.

(** C1 at two runs on [Mix/a.mp3].  When FFmpeg is killed by the timeout
    after it has begun to write, the stage answers [False] and both
    [a.mp3] and [norm_a.mp3] are left.  When the original is unlinked and
    the rename of the temporary file then fails, the later attempts fail
    on the missing original, the temporary file is removed and neither
    file is left. *)
Theorem normalize_audio_breaks_one_copy :
  let a := joinpath Scenario.mix (py "a.mp3") in
  let norm_a := joinpath Scenario.mix (py "norm_a.mp3") in
  let timed_out := normalize_audio Scenario.E_timeout a (Scenario.mix_with [py "a.mp3"] []) in
  let swapped := normalize_audio Scenario.E_ok a (Scenario.mix_with [py "a.mp3"] [false; true]) in
  fst timed_out = Ok (Some false)
  /\ a ∈ files (snd timed_out) /\ norm_a ∈ files (snd timed_out)
  /\ fst swapped = Ok (Some false)
  /\ (a ∉ files (snd swapped)) /\ (norm_a ∉ files (snd swapped)).
Proof.
  repeat split; try (by vm_compute);
    apply (bool_decide_unpack _); vm_compute; exact I.
Qed.


(** ** Archive builder and playlist run *)

Section Archive.

Variable E : env.

Lemma archive_only_refl zp w : archive_only zp w w.
Proof. by split. Qed.

Lemma archive_only_trans zp w1 w2 w3 :
  archive_only zp w1 w2 -> archive_only zp w2 w3 -> archive_only zp w1 w3.
Proof.
  intros [Hd1 Hf1] [Hd2 Hf2]. split; [congruence|].
  intros q Hq. by rewrite Hf2, Hf1.
Qed.

Lemma os_fault_archive_only zp w :
  archive_only zp w (snd (pop_fault w)).
Proof. by split. Qed.

Lemma zip_open_archive_only zp w r w' :
  zip_open zp w = (r, w') -> archive_only zp w w'.
Proof.
  unfold zip_open, os_fault. mrun. cbn [pop_fault].
  destruct (_ || _); intros [= <- <-]; [by split|].
  split; [reflexivity|]. intros q Hq. cbn.
  rewrite elem_of_union, elem_of_singleton. tauto.
Qed.

Lemma zip_write_archive_only zp src arc w r w' :
  zip_write src arc w = (r, w') -> archive_only zp w w'.
Proof.
  unfold zip_write, os_fault. mrun. cbn [pop_fault].
  destruct (_ || _); intros [= <- <-]; by split.
Qed.

Lemma zip_write_all_archive_only zp mp3s :
  forall w r w', zip_write_all mp3s w = (r, w') -> archive_only zp w w'.
Proof.
  induction mp3s as [|f mp3s IH]; intros w r w'; cbn [zip_write_all].
  - intros [= <- <-]. apply archive_only_refl.
  - mrun. destruct (zip_write f (name f) w) as [[[]|e|] w1] eqn:Hw;
      pose proof (zip_write_archive_only zp _ _ _ _ _ Hw) as H1.
    + intros H2%IH. by eapply archive_only_trans.
    + by intros [= <- <-].
    + by intros [= <- <-].
Qed.

Lemma glob_same_world d pat w r w' : glob d pat w = (r, w') -> w' = w.
Proof.
  unfold glob. destruct (contains _ _); mrun; congruence.
Qed.

Lemma zip_close_archive_only zp w r w' :
  zip_close w = (r, w') -> archive_only zp w w'.
Proof.
  unfold zip_close, os_fault. mrun. cbn [pop_fault].
  destruct (match faults w with [] => false | b :: _ => b end); intros [= <- <-]; by split.
Qed.

(** Writing the archive touches no file but the archive itself and no
    directory, however it ends. *)
Lemma write_archive_archive_only pp zp w r w' :
  write_archive pp zp w = (r, w') -> archive_only zp w w'.
Proof.
  unfold write_archive, with_zipfile. mrun.
  destruct (zip_open zp w) as [[[]|e|] w1] eqn:Hopen;
    pose proof (zip_open_archive_only _ _ _ _ Hopen) as H1;
    try (by intros [= <- <-]).
  destruct (glob pp (py "*.mp3") w1) as [[mp3s|e|] w2] eqn:Hglob;
    apply glob_same_world in Hglob as ->.
  - destruct (zip_write_all mp3s w1) as [[[]|e|] w3] eqn:Hall;
      pose proof (zip_write_all_archive_only zp _ _ _ _ Hall) as H2.
    + destruct (zip_close w3) as [[[]|e|] w4] eqn:Hclose;
        pose proof (zip_close_archive_only zp _ _ _ Hclose) as H3;
        intros [= <- <-]; eauto using archive_only_trans.
    + destruct (zip_close w3) as [[[]|e'|] w4] eqn:Hclose;
        pose proof (zip_close_archive_only zp _ _ _ Hclose) as H3;
        intros [= <- <-]; eauto using archive_only_trans.
    + intros [= <- <-]; eauto using archive_only_trans.
  - destruct (zip_close w1) as [[[]|e'|] w4] eqn:Hclose;
      pose proof (zip_close_archive_only zp _ _ _ Hclose) as H3;
      intros [= <- <-]; eauto using archive_only_trans.
  - intros [= <- <-]; eauto using archive_only_trans.
Qed.

(** What the code does on every run in which an error is raised while the
    archive is built: [_create_zip] catches and logs it and
    [download_playlist] still answers the archive path; if the error
    came up while the archive was being written, before the removal of
    the directory, no directory and no file other than the archive file
    has changed. *)
Theorem download_playlist_archive_error (fuel : nat) (playlist_url : list N) (w : world)
    (pp zp : path) (w1 : world) (e : exn) (w2 : world) :
  prepare_playlist E fuel playlist_url w = (Ok (pp, zp), w1) ->
  create_zip_body pp zp w1 = (Raise e, w2) ->
  download_playlist E fuel playlist_url w = (Ok (Some zp), emit (ELog Error) w2)
  /\ (fst (write_archive pp zp w1) <> Ok tt -> archive_only zp w1 w2).
Proof.
  intros Hprep Hbody. split.
  - unfold download_playlist, create_zip. mrun. rewrite Hprep. mrun.
    by rewrite Hbody.
  - intros Hwrite. unfold create_zip_body in Hbody. revert Hbody. mrun.
    destruct (write_archive pp zp w1) as [[[]|e'|] w'] eqn:Hw; [done| |].
    + intros [= <- <-]. by eapply write_archive_archive_only.
    + intros [=].
Qed.

End Archive.

(** The lemma above at a concrete run: a re-run over a directory that
    holds [a.mp3], where the write of [a.mp3] into the archive fails. *)
Lemma download_playlist_archive_error_witness :
  let w := Scenario.mix_with [py "a.mp3"] [false; false; true] in
  let w1 := snd (prepare_playlist Scenario.E_ok 1 Scenario.playlist_url w) in
  let w2 := snd (create_zip_body Scenario.mix Scenario.mix_zip w1) in
  download_playlist Scenario.E_ok 1 Scenario.playlist_url w
  = (Ok (Some Scenario.mix_zip), emit (ELog Error) w2)
  /\ (fst (write_archive Scenario.mix Scenario.mix_zip w1) <> Ok tt ->
      archive_only Scenario.mix_zip w1 w2).
Proof.
  intros w w1 w2.
  apply (download_playlist_archive_error Scenario.E_ok 1 Scenario.playlist_url w
           Scenario.mix Scenario.mix_zip w1 OSError w2).
  - vm_compute. reflexivity.
  - vm_compute. reflexivity.
Defined.

(** C2: the code breaks the claim at that run.  The error is raised
    while the archive is built and the directory is kept, as the claim
    says; but [_create_zip] swallows the error, a partial archive file is
    left at the archive path and the caller receives that path, not
    [None] as on every other error of [download_playlist]. *)
Lemma download_playlist_returns_path_after_archive_error :
  let w := Scenario.mix_with [py "a.mp3"] [false; false; true] in
  let w1 := snd (prepare_playlist Scenario.E_ok 1 Scenario.playlist_url w) in
  let run := download_playlist Scenario.E_ok 1 Scenario.playlist_url w in
  fst (prepare_playlist Scenario.E_ok 1 Scenario.playlist_url w)
  = Ok (Scenario.mix, Scenario.mix_zip)
  /\ fst (create_zip_body Scenario.mix Scenario.mix_zip w1) = Raise OSError
  /\ fst run = Ok (Some Scenario.mix_zip)
  /\ Scenario.mix_zip ∈ files (snd run)
  /\ Scenario.mix ∈ dirs (snd run).
Proof.
  repeat split; try (by vm_compute);
    apply (bool_decide_unpack _); vm_compute; exact I.
Qed.

Section Run.

Variable E : env.

(** C9: when the catalog raises for the playlist identifier,
    [download_playlist] answers [None] and the world is as before but for
    one error log: no directory is made, nothing is searched or fetched. *)
Theorem download_playlist_unknown_playlist (fuel : nat) (playlist_url : list N) (w : world) :
  sp_playlist E (playlist_id_of playlist_url) = None ->
  download_playlist E fuel playlist_url w = (Ok None, emit (ELog Error) w).
Proof.
  intros Hcat. unfold download_playlist, prepare_playlist. rewrite Hcat. by mrun.
Qed.

End Run.

(** C9 at a concrete run. *)
Lemma download_playlist_unknown_playlist_witness :
  download_playlist Scenario.E_no_playlist 5 Scenario.playlist_url
    (Scenario.mix_with [] [])
  = (Ok None, emit (ELog Error) (Scenario.mix_with [] [])).
Proof.
  apply (download_playlist_unknown_playlist Scenario.E_no_playlist 5 Scenario.playlist_url).
  reflexivity.
Defined.

(** * Further properties of the code *)

(** ** Candidate resolver: error paths and frame *)

Section ResolverMore.

Variable E : env.

Lemma duration_key_null d x w :
  e_duration x = Null -> duration_key d x w = (Raise TypeError, w).
Proof. unfold duration_key. by intros ->. Qed.

Lemma duration_key_cases d x w :
  (e_duration x <> Null /\ duration_key d x w = (Ok (distance d x), w))
  \/ (e_duration x = Null /\ duration_key d x w = (Raise TypeError, w)).
Proof.
  destruct (e_duration x) eqn:Hx.
  - left. split; [done|]. apply duration_key_typed. congruence.
  - right. split; [done|]. by apply duration_key_null.
  - left. split; [done|]. apply duration_key_typed. congruence.
Qed.

(** The loop of [min] over the distance key either answers one of the
    candidates or stops at a null duration with [TypeError]; it never
    touches the world. *)
Lemma min_loop_outcome d (rest : list entry) :
  forall best kbest w,
    (exists b, min_loop (duration_key d) best kbest rest w = (Ok b, w)
               /\ b ∈ best :: rest)
    \/ (min_loop (duration_key d) best kbest rest w = (Raise TypeError, w)
        /\ Exists (fun x => e_duration x = Null) rest).
Proof.
  induction rest as [|x rest IH]; intros best kbest w.
  - left. exists best. split; [reflexivity | by left].
  - cbn [min_loop]. mrun.
    destruct (duration_key_cases d x w) as [[Hx Hk] | [Hx Hk]]; rewrite Hk.
    2:{ right. split; [reflexivity | by left]. }
    match goal with |- context [if ?c then _ else _] => destruct c end;
      match goal with
      | |- context [min_loop _ ?b ?k _ ?w0] =>
          destruct (IH b k w0) as [(b' & Hrun & Hin) | [Hrun Hex]]; rewrite Hrun
      end;
      try (left; exists b'; split; [reflexivity|];
           rewrite !elem_of_cons in *; tauto);
      (right; split; [reflexivity | by right]).
Qed.

Lemma min_loop_null d (rest : list entry) :
  forall best kbest w,
    Exists (fun x => e_duration x = Null) rest ->
    min_loop (duration_key d) best kbest rest w = (Raise TypeError, w).
Proof.
  induction rest as [|x rest IH]; intros best kbest w Hex; [by inversion Hex|].
  cbn [min_loop]. mrun.
  destruct (duration_key_cases d x w) as [[Hx Hk] | [Hx Hk]]; rewrite Hk; [|reflexivity].
  apply Exists_cons in Hex as [Hex | Hex]; [congruence|].
  match goal with |- context [if ?c then _ else _] => destruct c end;
    by rewrite IH.
Qed.

Lemma py_min_outcome d (entries : list entry) w :
  entries <> [] ->
  (exists b, py_min (duration_key d) entries w = (Ok b, w) /\ b ∈ entries)
  \/ (py_min (duration_key d) entries w = (Raise TypeError, w)
      /\ Exists (fun x => e_duration x = Null) entries).
Proof.
  destruct entries as [|x rest]; [done|]. intros _.
  cbn [py_min]. mrun.
  destruct (duration_key_cases d x w) as [[Hx Hk] | [Hx Hk]]; rewrite Hk.
  2:{ right. split; [reflexivity | by left]. }
  match goal with
       | |- context [min_loop _ ?b ?k ?r ?w0] =>
           destruct (min_loop_outcome d r b k w0) as [(b' & Hrun & Hin) | [Hrun Hex]];
             rewrite Hrun
       end;
    try (left; exists b'; split; [reflexivity | done]);
    (right; split; [reflexivity | by right]).
Qed.

Lemma py_min_null d (entries : list entry) w :
  Exists (fun x => e_duration x = Null) entries ->
  py_min (duration_key d) entries w = (Raise TypeError, w).
Proof.
  destruct entries as [|x rest]; [by inversion 1|]. intros Hex.
  cbn [py_min]. mrun.
  destruct (duration_key_cases d x w) as [[Hx Hk] | [Hx Hk]]; rewrite Hk; [|reflexivity].
  apply Exists_cons in Hex as [Hex | Hex]; [congruence|].
  by rewrite min_loop_null.
Qed.

(** Every way [_get_youtube_url] can end. *)
Lemma get_youtube_url_cases (track_name artist_name : list N) (duration : option Z)
    (w : world) :
  let w1 := emit (ESearch (search_query track_name artist_name)) w in
  (exists entries x,
      yt_search E (search_query track_name artist_name) = SearchReturns (Some entries)
      /\ x ∈ entries
      /\ get_youtube_url E track_name artist_name duration w = (Ok (e_url x), w1))
  \/ (get_youtube_url E track_name artist_name duration w = (Ok None, w1)
      /\ (yt_search E (search_query track_name artist_name) = SearchReturns None
          \/ yt_search E (search_query track_name artist_name) = SearchReturns (Some [])))
  \/ (get_youtube_url E track_name artist_name duration w = (Ok None, emit (ELog Error) w1)
      /\ (yt_search E (search_query track_name artist_name) = SearchRaises
          \/ exists entries,
               yt_search E (search_query track_name artist_name) = SearchReturns (Some entries)
               /\ Exists (fun x => e_duration x = Null) entries)).
Proof.
  intros w1. unfold get_youtube_url, extract_info. mrun.
  fold (search_query track_name artist_name). fold w1.
  destruct (yt_search E _) as [|[[|first rest]|]] eqn:Hs; mrun.
  - right; right. split; [reflexivity | by left].
  - right; left. split; [reflexivity | by right].
  - assert (Hfirst : exists entries x,
               SearchReturns (Some (first :: rest)) = SearchReturns (Some entries)
               /\ x ∈ entries /\ (Ok (e_url first), w1) = (Ok (e_url x), w1)).
    { exists (first :: rest), first. repeat split. by left. }
    destruct duration as [[|p|p]|]; try (left; exact Hfirst).
    all: match goal with
         | |- context [py_min (duration_key ?d) ?l ?w0] =>
             destruct (py_min_outcome d l w0) as [(b & Hrun & Hin) | [Hrun Hex]];
               [done | |]; rewrite Hrun
         end;
      try (left; exists (first :: rest), b; by repeat split);
      (right; right; split; [reflexivity|]; right; exists (first :: rest); by split).
  - right; left. split; [reflexivity | by left].
Qed.

End ResolverMore.

Section ResolverFacts.

Variable E : env.

(** X1: _get_youtube_url always returns normally, with a locator or None,
    whatever the search provider answers or raises; it leaves the files, the
    directories and the pending answers of the operating system as they
    were, sends exactly one search and no download, and the search string is
    'ytsearch2:' followed by at most 60 characters of '<track> <artist>' (at
    most 70 characters in all). *)
Theorem get_youtube_url_contained (track_name artist_name : list N) (duration : option Z)
    (w : world) :
  exists r w',
    get_youtube_url E track_name artist_name duration w = (Ok r, w')
    /\ files w' = files w /\ dirs w' = dirs w /\ faults w' = faults w
    /\ fetches (trace w') = ESearch (search_query track_name artist_name) :: fetches (trace w)
    /\ (length (search_query track_name artist_name) <= 70)%nat.
Proof.
  assert (Hlen : (length (search_query track_name artist_name) <= 70)%nat).
  { unfold search_query. rewrite length_app, length_firstn.
    change (length (py "ytsearch2:")) with 10%nat. lia. }
  destruct (get_youtube_url_cases E track_name artist_name duration w)
    as [(entries & x & _ & _ & Hrun) | [[Hrun _] | [Hrun _]]]; rewrite Hrun;
    eexists _, _; (split; [reflexivity|]); by repeat split.
Qed.

(** X2: Whenever _get_youtube_url returns a locator, the search returned a
    list of entries and the locator is the 'url' of one of them: the
    resolver never invents a locator. *)
Theorem get_youtube_url_from_candidates (track_name artist_name : list N)
    (duration : option Z) (w w' : world) (u : list N) :
  get_youtube_url E track_name artist_name duration w = (Ok (Some u), w') ->
  exists entries x,
    yt_search E (search_query track_name artist_name) = SearchReturns (Some entries)
    /\ x ∈ entries /\ e_url x = Some u.
Proof.
  intros Hrun.
  destruct (get_youtube_url_cases E track_name artist_name duration w)
    as [(entries & x & Hs & Hin & Hrun') | [[Hrun' _] | [Hrun' _]]];
    rewrite Hrun' in Hrun; [|discriminate..].
  exists entries, x. repeat split; try done. congruence.
Qed.

(** X3: For every non-zero target duration and every list of search entries
    in which some entry carries the key 'duration' with the value None,
    _get_youtube_url returns None and logs one error after its search,
    wherever that entry stands in the list and whatever the other entries
    are. *)
Theorem get_youtube_url_null_duration_gives_up (track_name artist_name : list N)
    (d : Z) (w : world) (entries : list entry) :
  yt_search E (search_query track_name artist_name) = SearchReturns (Some entries) ->
  Exists (fun x => e_duration x = Null) entries ->
  d <> 0 ->
  get_youtube_url E track_name artist_name (Some d) w
  = (Ok None, emit (ELog Error) (emit (ESearch (search_query track_name artist_name)) w)).
Proof.
  intros Hs Hex Hd. unfold get_youtube_url, extract_info. mrun.
  fold (search_query track_name artist_name). rewrite Hs. mrun.
  destruct entries as [|first rest]; [by inversion Hex|].
  destruct d as [|p|p]; [done| |]; by rewrite py_min_null.
Qed.

End ResolverFacts.

Lemma get_youtube_url_from_candidates_witness :
  exists entries x,
    yt_search Scenario.E_ok (search_query (py "Song") (py "Artist"))
    = SearchReturns (Some entries)
    /\ x ∈ entries /\ e_url x = Some (py "https://youtu.be/exact").
Proof.
  apply (get_youtube_url_from_candidates Scenario.E_ok (py "Song") (py "Artist")
           (Some 200) (Scenario.mix_with [] [])
           (emit (ESearch (search_query (py "Song") (py "Artist"))) (Scenario.mix_with [] []))
           (py "https://youtu.be/exact")).
  reflexivity.
Defined.

Lemma get_youtube_url_null_duration_gives_up_witness :
  get_youtube_url Scenario.E_null_duration (py "Song") (py "Artist") (Some 200)
    (Scenario.mix_with [] [])
  = (Ok None, emit (ELog Error)
       (emit (ESearch (search_query (py "Song") (py "Artist"))) (Scenario.mix_with [] []))).
Proof.
  apply (get_youtube_url_null_duration_gives_up Scenario.E_null_duration (py "Song")
           (py "Artist") 200 (Scenario.mix_with [] [])
           [Scenario.live_stream; Scenario.exact_match]).
  - reflexivity.
  - left. reflexivity.
  - discriminate.
Defined.

Lemma get_youtube_url_closest_witness :
  exists pre best post,
    [ {| e_url := Some (py "a"); e_duration := Val 190 |};
      {| e_url := Some (py "b"); e_duration := Absent |};
      {| e_url := Some (py "c"); e_duration := Val 210 |} ] = pre ++ best :: post
    /\ fst (get_youtube_url
              (Scenario.make_env None []
                 (SearchReturns (Some
                    [ {| e_url := Some (py "a"); e_duration := Val 190 |};
                      {| e_url := Some (py "b"); e_duration := Absent |};
                      {| e_url := Some (py "c"); e_duration := Val 210 |} ]))
                 DownloadRaises FfmpegSpawnError)
              (py "Song") (py "Artist") (Some 200) (Scenario.mix_with [] []))
       = Ok (e_url best)
    /\ Forall (fun x => distance 200 best < distance 200 x) pre
    /\ Forall (fun x => distance 200 best <= distance 200 x) post.
Proof.
  apply (get_youtube_url_closest
           (Scenario.make_env None []
              (SearchReturns (Some
                 [ {| e_url := Some (py "a"); e_duration := Val 190 |};
                   {| e_url := Some (py "b"); e_duration := Absent |};
                   {| e_url := Some (py "c"); e_duration := Val 210 |} ]))
              DownloadRaises FfmpegSpawnError)
           (py "Song") (py "Artist") 200 (Scenario.mix_with [] [])).
  - reflexivity.
  - discriminate.
  - lia.
  - repeat constructor; discriminate.
Defined.

(** ** Frames of the file primitives *)

Section Frames.

Lemma same_outside_refl ps w : same_outside ps w w.
Proof. by split. Qed.

Lemma same_outside_trans ps w1 w2 w3 :
  same_outside ps w1 w2 -> same_outside ps w2 w3 -> same_outside ps w1 w3.
Proof.
  intros [Hd1 Hf1] [Hd2 Hf2]. split; [congruence|].
  intros q Hq. by rewrite Hf2, Hf1.
Qed.

Lemma same_outside_emit ps e w : same_outside ps w (emit e w).
Proof. by split. Qed.

Lemma same_outside_weaken ps ps' w w' :
  ps ⊆ ps' -> same_outside ps w w' -> same_outside ps' w w'.
Proof.
  intros Hsub [Hd Hf]. split; [done|]. intros q Hq. apply Hf. intros Hin. by apply Hq, Hsub.
Qed.

(** [unlink] removes the file or raises [OSError] and changes nothing. *)
Lemma unlink_cases p w :
  exists w',
    ((unlink p w = (Ok tt, w') /\ files w' = files w ∖ {[p]} /\ p ∈ files w)
     \/ (unlink p w = (Raise OSError, w') /\ files w' = files w))
    /\ dirs w' = dirs w /\ trace w' = EUnlink p :: trace w
    /\ faults w' = tl (faults w).
Proof.
  unfold unlink, os_fault, pop_fault. mrun. wsimpl.
  destruct (match faults w with [] => false | b :: _ => b end); wsimpl.
  { eexists; split; [right; split; reflexivity | by repeat split]. }
  case_bool_decide as Hp; wsimpl.
  - eexists; split; [left; split; [reflexivity | by split] | by repeat split].
  - eexists; split; [right; split; reflexivity | by repeat split].
Qed.

Lemma unlink_same_outside p ps w r w' :
  p ∈ ps -> unlink p w = (r, w') -> same_outside ps w w'.
Proof.
  intros Hp Hrun.
  destruct (unlink_cases p w) as (w1 & [(Hr & Hf & _) | (Hr & Hf)] & Hd & _);
    rewrite Hr in Hrun; injection Hrun as <- <-; (split; [done|]); intros q Hq;
    rewrite Hf; [|done].
  rewrite elem_of_difference, elem_of_singleton. split; [tauto|].
  intros Hin. split; [done|]. by intros ->.
Qed.

(** [rename] moves the file or raises [OSError] and changes nothing. *)
Lemma rename_full_cases win src dst w :
  exists w',
    ((rename win src dst w = (Ok tt, w')
      /\ (files w' = files w ∖ {[src]} ∪ {[dst]} \/ (src = dst /\ files w' = files w))
      /\ src ∈ files w)
     \/ (rename win src dst w = (Raise OSError, w') /\ files w' = files w))
    /\ dirs w' = dirs w /\ trace w' = ERename src dst :: trace w
    /\ faults w' = tl (faults w).
Proof.
  unfold rename, os_fault, pop_fault. mrun. wsimpl.
  destruct (match faults w with [] => false | b :: _ => b end); wsimpl.
  { eexists; split; [right; split; reflexivity | by repeat split]. }
  case_bool_decide as Hsrc; wsimpl.
  2:{ eexists; split; [right; split; reflexivity | by repeat split]. }
  case_bool_decide as Heq.
  { eexists; split; [left; split; [reflexivity | split; [by right | done]] | by repeat split]. }
  destruct (_ && win || _).
  { eexists; split; [right; split; reflexivity | by repeat split]. }
  eexists; split; [left; split; [reflexivity | split; [by left | done]] | by repeat split].
Qed.

Lemma rename_same_outside win src dst ps w r w' :
  src ∈ ps -> dst ∈ ps -> rename win src dst w = (r, w') -> same_outside ps w w'.
Proof.
  intros Hs Hd Hrun.
  destruct (rename_full_cases win src dst w)
    as (w1 & [(Hr & Hf & _) | (Hr & Hf)] & Hdirs & _);
    rewrite Hr in Hrun; injection Hrun as <- <-; (split; [done|]); intros q Hq.
  - destruct Hf as [Hf | [_ Hf]]; rewrite Hf; [|done].
    rewrite elem_of_union, elem_of_difference, !elem_of_singleton.
    split; [intros [[? _] | ->]; [done | by destruct Hq] | ].
    intros Hin. left. split; [done|]. by intros ->.
  - by rewrite Hf.
Qed.

End Frames.

Section FetcherMore.

Variable E : env.

Lemma glob_cases d pat w :
  (contains pat (py "**") = true /\ glob d pat w = (Raise ValueError, w))
  \/ (contains pat (py "**") = false
      /\ exists l, glob d pat w = (Ok l, w)
         /\ forall q, q ∈ l <-> q ∈ files w /\ parent q = parts d
                                /\ Fnmatch.fnmatchcase (name q) pat = true).
Proof.
  unfold glob. destruct (contains pat (py "**")); [by left|]. right. split; [done|].
  eexists. split; [reflexivity|]. intros q. rewrite elem_of_elements, elem_of_filter. tauto.
Qed.

(** Every way [_download_track] can end. *)
Lemma download_track_cases (url : list N) (output_path : path) (final_filename : list N)
    (w : world) :
  let w1 := snd (ydl_download E url output_path (temp_filename E url) w) in
  let final_path := joinpath output_path (final_filename ++ py ".mp3") in
  exists r w',
    download_track E url output_path final_filename w = (Ok r, w')
    /\ dirs w' = dirs w
    /\ match r with
       | Some p => p = final_path /\ p ∈ files w'
       | None => files w' = files w1
       end.
Proof.
  intros w1 final_path. subst w1. unfold download_track, ydl_download. mrun.
  destruct (yt_download E url) as [|exts] eqn:Hdl; mrun.
  { by eexists None, _. }
  set (w1 := set_files _ _).
  destruct (glob_cases output_path (temp_filename E url ++ py "*.mp3") w1)
    as [[_ Hg] | (_ & l & Hg & _)]; rewrite Hg.
  { by eexists None, _. }
  destruct l as [|f fs].
  { by eexists None, _. }
  destruct (rename_attempts_cases E (seq 0 2) f final_path (emit (ESleep 500) w1))
    as (r & w3 & new & Hrun & _ & Hd & _ & Hr).
  fold final_path. rewrite Hrun. exists r, w3. split; [reflexivity|]. split; [done|].
  destruct r as [p|]; [done|]. by destruct Hr as (_ & _ & ->).
Qed.

(** X5: Whenever _download_track returns None, the directories are as before
    and the files are exactly those present after the yt-dlp download:
    whatever the download wrote under the temporary name stays in the output
    directory, nothing is cleaned up. *)
Theorem download_track_failure_leaves_download (url : list N) (output_path : path)
    (final_filename : list N) (w w' : world) :
  download_track E url output_path final_filename w = (Ok None, w') ->
  dirs w' = dirs w
  /\ files w' = files (snd (ydl_download E url output_path (temp_filename E url) w)).
Proof.
  intros Hrun.
  destruct (download_track_cases url output_path final_filename w)
    as (r & w1 & Hrun1 & Hd & Hr).
  rewrite Hrun in Hrun1. injection Hrun1 as <- <-. by split.
Qed.

End FetcherMore.

Section TempShape.

Import Fnmatch.

Lemma digits_of_uint (u : Decimal.uint) :
  Forall digit (py (NilEmpty.string_of_uint u)).
Proof.
  induction u; cbn; constructor; try done; unfold digit; cbn; lia.
Qed.

Lemma str_of_int_digits (z : Z) : 0 <= z -> Forall digit (str_of_int z).
Proof.
  intros Hz. unfold str_of_int. destruct z as [|p|p]; [| |lia].
  - repeat constructor; unfold digit; cbn; lia.
  - cbn [Z.to_int NilZero.string_of_int]. unfold NilZero.string_of_uint.
    pose proof (Unsigned.to_uint_nonnil p) as Hn.
    destruct (Pos.to_uint p) eqn:Hp; [done|..]; rewrite <- Hp; apply digits_of_uint.
Qed.

Lemma digit_plain c : digit c -> plain c.
Proof. unfold digit, plain, star, qmark, lbracket. lia. Qed.

Lemma temp_filename_plain (E : env) (url : list N) : Forall plain (temp_filename E url).
Proof.
  unfold temp_filename. apply Forall_app. split.
  - repeat constructor; unfold plain, star, qmark, lbracket; cbn; lia.
  - eapply Forall_impl; [apply str_of_int_digits|apply digit_plain].
    apply Z.mod_pos_bound. lia.
Qed.

End TempShape.

Section PatternsMore.

Import Fnmatch.

Lemma no_double_star_tail (s : list N) :
  Forall (fun c => c <> star) s -> contains (s ++ py "*.mp3") (py "**") = false.
Proof.
  induction 1 as [|c s Hc _ IH]; [by vm_compute|].
  cbn [app contains]. rewrite IH, orb_false_r.
  change (py "**") with [star; star]. cbn [startswith].
  by rewrite (proj2 (N.eqb_neq star c)).
Qed.

Lemma no_double_star_around (s : list N) :
  Forall (fun c => c <> star) s -> s <> [] ->
  contains (py "*" ++ s ++ py "*.mp3") (py "**") = false.
Proof.
  intros Hs Hne. change (py "*") with [star]. cbn [app contains].
  rewrite no_double_star_tail, orb_false_r by done.
  destruct Hs as [|c s Hc _]; [done|].
  change (py "**") with [star; star]. cbn [app startswith].
  rewrite (proj2 (N.eqb_neq star c)) by done. by rewrite andb_false_r.
Qed.

Lemma normalized_no_star (text : list N) :
  Forall (fun c => c <> star) (normalize_filename text).
Proof.
  apply Forall_forall. intros c Hc ->.
  apply (normalize_filename_clean text star Hc).
  unfold forbidden_chars, star. rewrite !elem_of_cons. tauto.
Qed.

Lemma plain_no_star (s : list N) : Forall plain s -> Forall (fun c => c <> star) s.
Proof. intros H. eapply Forall_impl; [exact H|]. by intros c [Hc _]. Qed.

(** Names that end in [.mp3] are what [*.mp3] matches. *)
Lemma fnmatch_mp3 (n : list N) :
  fnmatchcase n (py "*.mp3") = true <-> exists stem, n = stem ++ py ".mp3".
Proof.
  unfold fnmatchcase.
  change (tokens (py "*.mp3")) with (TStar :: List.map TLit (py ".mp3")).
  split.
  - induction n as [|c n IH]; [by vm_compute|].
    rewrite match_star_unfold. intros [H | H]%orb_true_iff.
    + exists []. cbn [app].
      assert (Hlit : forall l s, match_tokens (List.map TLit l) s = true -> s = l).
      { clear. induction l as [|x l IHl]; intros [|y s]; cbn; try done.
        intros [->%N.eqb_eq H]%andb_true_iff. f_equal. by apply IHl. }
      by apply Hlit in H.
    + destruct (IH H) as [stem ->]. by exists (c :: stem).
  - intros [stem ->]. apply match_star_skip. by vm_compute.
Qed.

End PatternsMore.

Section GlobCollision.

Variable E : env.

(** X6: The pattern temp_<n>*.mp3 with which _download_track looks for its
    download also matches the temporary file of any other locator whose
    temporary name extends it (temp_12*.mp3 matches temp_123.mp3): if that
    file is in the output directory, the glob succeeds and lists it among
    the candidates to rename. *)
Theorem download_glob_matches_longer_number (u1 u2 more : list N) (output_path : path)
    (w : world) :
  temp_filename E u2 = temp_filename E u1 ++ more ->
  joinpath output_path (temp_filename E u2 ++ py ".mp3") ∈ files w ->
  exists l,
    glob output_path (temp_filename E u1 ++ py "*.mp3") w = (Ok l, w)
    /\ joinpath output_path (temp_filename E u2 ++ py ".mp3") ∈ l.
Proof.
  intros Hext Hin.
  pose proof (temp_filename_plain E u1) as Hplain.
  destruct (glob_cases output_path (temp_filename E u1 ++ py "*.mp3") w)
    as [[Hc _] | (_ & l & Hg & Hl)].
  { rewrite no_double_star_tail in Hc by by apply plain_no_star. discriminate. }
  exists l. split; [done|]. apply Hl. split; [done|].
  assert (Hname : exists c n, temp_filename E u2 ++ py ".mp3" = c :: n).
  { unfold temp_filename. by eexists _, _. }
  destruct Hname as (c & n & Hname). rewrite Hname. cbn [joinpath parent name].
  split; [reflexivity|]. rewrite <- Hname, Hext, <- app_assoc.
  unfold Fnmatch.fnmatchcase, Fnmatch.tokens. rewrite tokens_plain by done.
  rewrite match_literals.
  change (Fnmatch.tokens_from 0 (py "*.mp3"))
    with (Fnmatch.TStar :: List.map Fnmatch.TLit (py ".mp3")).
  apply match_star_skip. by vm_compute.
Qed.

End GlobCollision.

Section StageMore.

Variable E : env.

(** What the [except OSError] branch of the swap loop does. *)
Lemma swap_give_up f t w :
  exists r w',
    (log Error ;;;
     left_over <- path_exists t ;;
     (if left_over then unlink t else ret tt) ;;;
     ret (Some false)) w = (r, w')
    /\ same_outside [f; t] w w'
    /\ (r = Ok (Some false) \/ r = Raise OSError).
Proof.
  unfold path_exists. mrun. wsimpl.
  destruct (_ || _).
  - destruct (unlink_cases t (emit (ELog Error) w)) as (w1 & Hcases & _).
    assert (Hframe : forall r, unlink t (emit (ELog Error) w) = (r, w1) ->
                               same_outside [f; t] w w1).
    { intros r Hr. eapply same_outside_trans; [apply (same_outside_emit _ (ELog Error))|].
      eapply unlink_same_outside; [|exact Hr]. by repeat constructor. }
    destruct Hcases as [(Hr & _) | (Hr & _)]; rewrite Hr;
      eexists _, _; (split; [reflexivity|]); (split; [by eapply Hframe|]); tauto.
  - eexists _, _. split; [reflexivity|]. split; [apply same_outside_emit | tauto].
Qed.

Lemma swap_attempts_outcome (attempts : list nat) (f t : path) :
  f <> t ->
  forall w, exists r w',
    swap_attempts E attempts f t w = (r, w')
    /\ same_outside [f; t] w w'
    /\ swap_result attempts f t w' r.
Proof.
  intros Hne. induction attempts as [|a attempts IH]; intros w.
  - exists (Ok None), w. split; [reflexivity|]. split; [apply same_outside_refl|].
    right; right; right. by split.
  - assert (Hhandler : forall w0, same_outside [f; t] w w0 ->
      exists r w',
        (if (a <? 2)%nat
         then sleep 1000 ;;; swap_attempts E attempts f t
         else log Error ;;;
              left_over <- path_exists t ;;
              (if left_over then unlink t else ret tt) ;;;
              ret (Some false)) w0 = (r, w')
        /\ same_outside [f; t] w w'
        /\ swap_result (a :: attempts) f t w' r).
    { intros w0 Hw0. destruct (a <? 2)%nat eqn:Ha.
      - apply Nat.ltb_lt in Ha. mrun.
        destruct (IH (emit (ESleep 1000) w0)) as (r & w' & Hrun & Hframe & Hres).
        exists r, w'. split; [exact Hrun|]. split.
        + eapply same_outside_trans; [exact Hw0|].
          eapply same_outside_trans; [apply (same_outside_emit _ (ESleep 1000))|done].
        + destruct Hres as [H | [H | [H | [H1 H2]]]]; unfold swap_result; auto.
          right; right; right. split; [done|]. by constructor.
      - destruct (swap_give_up f t w0) as (r & w' & Hrun & Hframe & Hres).
        exists r, w'. split; [exact Hrun|]. split.
        + by eapply same_outside_trans.
        + unfold swap_result. tauto. }
    cbn [swap_attempts]. mrun.
    destruct (unlink_cases f w) as (w1 & Hcases & Hd1 & _).
    assert (Hw1 : forall r, unlink f w = (r, w1) -> same_outside [f; t] w w1).
    { intros r Hr. eapply unlink_same_outside; [|exact Hr]. by repeat constructor. }
    destruct Hcases as [(Hr & Hf1 & _) | (Hr & Hf1)]; rewrite Hr.
    + destruct (rename_full_cases (windows E) t f w1) as (w2 & Hcases2 & Hd2 & _).
      assert (Hw2 : forall r, rename (windows E) t f w1 = (r, w2) ->
                              same_outside [f; t] w w2).
      { intros r Hr2. eapply same_outside_trans; [by eapply Hw1|].
        eapply rename_same_outside; [| |exact Hr2]; by repeat constructor. }
      destruct Hcases2 as [(Hr2 & Hf2 & _) | (Hr2 & Hf2)]; rewrite Hr2.
      * exists (Ok (Some true)), (emit (ELog Debug) w2). split; [reflexivity|]. split.
        -- eapply same_outside_trans; [by eapply Hw2|apply same_outside_emit].
        -- left. split; [done|]. wsimpl.
           destruct Hf2 as [Hf2 | [Heq _]]; [|congruence]. rewrite Hf2. in_set.
      * destruct (Hhandler w2 (Hw2 _ Hr2)) as (r & w' & Hrun & Hframe & Hres).
        exists r, w'. split; [exact Hrun | by split].
    + destruct (Hhandler w1 (Hw1 _ Hr)) as (r & w' & Hrun & Hframe & Hres).
      exists r, w'. split; [exact Hrun | by split].
Qed.

End StageMore.

Section StageFacts.

Variable E : env.

Lemma normalization_off_cases :
  normalization_on E = false ->
  negb (default false (ffmpeg_available E)) = true
  \/ (negb (default false (ffmpeg_available E)) = false
      /\ negb (bool_decide (lower (default (py "true") (normalize_audio_var E)) = py "true"))
         = true).
Proof.
  unfold normalization_on. destruct (default false _); cbn; [|by left].
  intros ->. by right.
Qed.

Lemma normalization_on_cases :
  normalization_on E = true ->
  negb (default false (ffmpeg_available E)) = false
  /\ negb (bool_decide (lower (default (py "true") (normalize_audio_var E)) = py "true"))
     = false.
Proof.
  unfold normalization_on. destruct (default false _); cbn; [|done].
  by intros ->.
Qed.

Lemma run_ffmpeg_same_outside (f : path) (w : world) r w' :
  run_ffmpeg E f (norm_path f) w = (r, w') -> same_outside [f; norm_path f] w w'.
Proof.
  unfold run_ffmpeg. mrun.
  assert (Hadd : same_outside [f; norm_path f] w
            (set_files (fun fs => fs ∪ {[norm_path f]})
               (emit (ETranscode f (norm_path f)) w))).
  { split; [done|]. intros q Hq. wsimpl. rewrite elem_of_union, elem_of_singleton.
    split; [intros [?| ->]; [done|] | tauto]. exfalso. apply Hq. by repeat constructor. }
  destruct (ffmpeg E f (norm_path f)) as [rc [|]|[|]|]; mrun;
    intros [= <- <-]; try exact Hadd; apply same_outside_emit.
Qed.

(** Every way [_normalize_audio] can end when it is switched on and the
    file is there. *)
Lemma normalize_audio_run (file_path : path) (w : world) :
  normalization_on E = true ->
  bool_decide (file_path ∈ files w) || bool_decide (file_path ∈ dirs w) = true ->
  exists b w',
    normalize_audio E file_path w = (Ok (Some b), w')
    /\ same_outside [file_path; norm_path file_path] w w'
    /\ (b = true -> file_path ∈ files w' /\ norm_path file_path ∉ files w').
Proof.
  intros [Hon1 Hon2]%normalization_on_cases Hthere.
  unfold normalize_audio. rewrite Hon1, Hon2. unfold path_exists at 1. mrun.
  rewrite Hthere. cbn [negb]. fold (norm_path file_path).
  destruct (run_ffmpeg E file_path (norm_path file_path) w) as [[rc|e|] w1] eqn:Hff.
  - pose proof (run_ffmpeg_same_outside _ _ _ _ Hff) as Hw1.
    unfold path_exists. mrun.
    destruct (bool_decide (norm_path file_path ∈ files w1)
              || bool_decide (norm_path file_path ∈ dirs w1)) eqn:Hprod.
    2:{ rewrite andb_false_r. mrun. by exists false, w1. }
    rewrite andb_true_r. destruct (rc =? 0); mrun.
    + destruct (swap_attempts_outcome E (seq 0 3) file_path (norm_path file_path)
                  (fun H => norm_name_fresh file_path (eq_sym H))
                  (emit (ESleep 1000) w1))
        as (r & w' & Hrun & Hframe & Hres).
      rewrite Hrun.
      assert (Hw' : same_outside [file_path; norm_path file_path] w w').
      { eapply same_outside_trans; [exact Hw1|].
        eapply same_outside_trans; [apply (same_outside_emit _ (ESleep 1000))|done]. }
      destruct Hres as [(-> & Hin & Hout) | [-> | [-> | [-> Hall]]]].
      * by exists true, w'.
      * by exists false, w'.
      * exists false, (emit (ELog Error) w'). split; [reflexivity|]. split; [|done].
        eapply same_outside_trans; [exact Hw'|apply same_outside_emit].
      * exfalso. cbn in Hall. inversion Hall as [|? ? _ Hall1]; subst.
        inversion Hall1 as [|? ? _ Hall2]; subst.
        inversion Hall2 as [|? ? Hlt _]; subst. lia.
    + idtac.
      * destruct (unlink_cases (norm_path file_path) w1) as (w2 & Hcases & _).
        assert (Hw2 : forall r, unlink (norm_path file_path) w1 = (r, w2) ->
                                same_outside [file_path; norm_path file_path] w w2).
        { intros r Hr. eapply same_outside_trans; [exact Hw1|].
          eapply unlink_same_outside; [|exact Hr]. by repeat constructor. }
        destruct Hcases as [(Hr & _) | (Hr & _)]; rewrite Hr.
        -- exists false, w2. split; [reflexivity|]. split; [by eapply Hw2 | done].
        -- exists false, (emit (ELog Error) w2). split; [reflexivity|]. split; [|done].
           eapply same_outside_trans; [by eapply Hw2 | apply same_outside_emit].
  - pose proof (run_ffmpeg_same_outside _ _ _ _ Hff) as Hw1.
    exists false, (emit (ELog Error) w1). split; [by destruct e|]. split; [|done].
    eapply same_outside_trans; [exact Hw1 | apply same_outside_emit].
  - exfalso. unfold run_ffmpeg in Hff. revert Hff. mrun.
    destruct (ffmpeg E _ _) as [? [|]|[|]|]; mrun; discriminate.
Qed.

Lemma normalize_audio_off (file_path : path) (w : world) :
  normalization_on E = false ->
  normalize_audio E file_path w = (Ok (Some true), emit (ELog Debug) w).
Proof.
  intros [H | [H1 H2]]%normalization_off_cases; unfold normalize_audio.
  - by rewrite H.
  - by rewrite H1, H2.
Qed.

(** X7: If FFmpeg was not found at start-up, or NORMALIZE_AUDIO is set to
    anything that does not lower-case to 'true', _normalize_audio returns
    True after one debug log without looking at the file and without
    starting FFmpeg; the file system is untouched. *)
Theorem normalize_audio_skipped (file_path : path) (w : world) :
  normalization_on E = false ->
  normalize_audio E file_path w = (Ok (Some true), emit (ELog Debug) w).
Proof. apply normalize_audio_off. Qed.


Lemma normalize_audio_outcome (file_path : path) (w : world) :
  exists b w',
    normalize_audio E file_path w = (Ok (Some b), w')
    /\ same_outside [file_path; norm_path file_path] w w'.
Proof.
  destruct (normalization_on E) eqn:Hon.
  - destruct (bool_decide (file_path ∈ files w) || bool_decide (file_path ∈ dirs w)) eqn:Hthere.
    + destruct (normalize_audio_run file_path w Hon Hthere) as (b & w' & Hrun & Hframe & _).
      by exists b, w'.
    + apply orb_false_elim in Hthere as [Hf%bool_decide_eq_false Hd%bool_decide_eq_false].
      exists false, w. split; [|apply same_outside_refl].
      apply normalization_on_cases in Hon as [Hon1 Hon2].
      unfold normalize_audio. rewrite Hon1, Hon2. unfold path_exists at 1. mrun.
      by rewrite (bool_decide_eq_false_2 _ Hf), (bool_decide_eq_false_2 _ Hd).
  - exists true, (emit (ELog Debug) w). split; [|apply same_outside_emit].
    apply normalization_off_cases in Hon as [H | [H1 H2]]; unfold normalize_audio.
    + by rewrite H.
    + by rewrite H1, H2.
Qed.


(** X10: With normalisation enabled, whenever _normalize_audio returns True
    the file exists at the original path and no norm_<name> sibling is left. *)
Theorem normalize_audio_true_means_replaced (file_path : path) (w w' : world) :
  normalization_on E = true ->
  normalize_audio E file_path w = (Ok (Some true), w') ->
  file_path ∈ files w' /\ norm_path file_path ∉ files w'.
Proof.
  intros Hon Hrun.
  destruct (bool_decide (file_path ∈ files w) || bool_decide (file_path ∈ dirs w)) eqn:Hthere.
  - destruct (normalize_audio_run file_path w Hon Hthere) as (b & w1 & Hrun1 & _ & Htrue).
    rewrite Hrun1 in Hrun. injection Hrun as -> <-. by apply Htrue.
  - apply orb_false_elim in Hthere as [Hf%bool_decide_eq_false Hd%bool_decide_eq_false].
    apply normalization_on_cases in Hon as [Hon1 Hon2].
    unfold normalize_audio in Hrun. rewrite Hon1, Hon2 in Hrun.
    unfold path_exists at 1 in Hrun. revert Hrun. mrun.
    by rewrite (bool_decide_eq_false_2 _ Hf), (bool_decide_eq_false_2 _ Hd).
Qed.

End StageFacts.

Section NormalizerMore.

Lemma lstrip_nil_iff s : lstrip s = [] <-> Forall (fun c => isspace c = true) s.
Proof.
  induction s as [|c s IH]; cbn; [by split; [constructor|]|].
  destruct (isspace c) eqn:Hc.
  - rewrite IH. split; [by constructor | by inversion 1].
  - split; [done|]. inversion 1; congruence.
Qed.

Lemma strip_nil_iff s : strip s = [] <-> Forall (fun c => isspace c = true) s.
Proof.
  unfold strip, rstrip. rewrite <- lstrip_nil_iff. split.
  - intros H. apply (f_equal (@rev N)) in H. rewrite rev_involutive in H. cbn in H.
    apply lstrip_nil_iff in H.
    pose proof (lstrip_head s) as Hh. destruct (lstrip s) as [|c u]; [done|].
    exfalso. rewrite Forall_forall in H. specialize (H c).
    rewrite H in Hh; [done|]. apply list_elem_of_In, in_rev. rewrite rev_involutive. by left.
  - by intros ->.
Qed.

Lemma translate_keeps_space text :
  Forall (fun c => isspace c = true)
         (translate (maketrans forbidden_chars replacement_chars) text)
  <-> Forall (fun c => isspace c = true) text.
Proof.
  rewrite translate_spec. induction text as [|c text IH]; [done|]. cbn [List.map].
  rewrite !Forall_cons, IH.
  assert (isspace (if bool_decide (c ∈ forbidden_chars) then underscore else c) = isspace c)
    as ->; [|done].
  case_bool_decide as Hin; [|done]. unfold forbidden_chars in Hin.
  repeat (apply elem_of_cons in Hin as [-> | Hin]; [by vm_compute|]).
  by apply elem_of_nil in Hin.
Qed.

(** X11: normalize_filename returns the empty string exactly when every
    character of its input is whitespace (the empty input included). *)
Theorem normalize_filename_empty_iff (text : list N) :
  normalize_filename text = [] <-> Forall (fun c => isspace c = true) text.
Proof. unfold normalize_filename. by rewrite strip_nil_iff, translate_keeps_space. Qed.

Lemma rstrip_last s :
  match List.last (List.map Some (rstrip s)) None with
  | Some c => isspace c = false
  | None => rstrip s = []
  end.
Proof.
  unfold rstrip. pose proof (lstrip_head (rev s)) as Hh.
  destruct (lstrip (rev s)) as [|c u]; [done|].
  cbn [rev]. rewrite List.map_app. cbn [List.map]. rewrite last_last. exact Hh.
Qed.

(** X12: The result of normalize_filename is never longer than its input and
    neither starts nor ends with a whitespace character. *)
Theorem normalize_filename_trimmed (text : list N) :
  (length (normalize_filename text) <= length text)%nat
  /\ match normalize_filename text with
     | [] => True
     | c :: _ => isspace c = false
     end
  /\ match List.last (List.map Some (normalize_filename text)) None with
     | Some c => isspace c = false
     | None => normalize_filename text = []
     end.
Proof.
  unfold normalize_filename, strip.
  set (t := translate _ text).
  assert (Hlen : forall s, (length (lstrip s) <= length s)%nat).
  { induction s as [|c s IH]; cbn; [lia|]. destruct (isspace c); cbn; lia. }
  split; [|split].
  - unfold rstrip. rewrite length_rev.
    etransitivity; [apply Hlen|]. rewrite length_rev.
    etransitivity; [apply Hlen|]. unfold t, translate. by rewrite length_map.
  - pose proof (lstrip_head t) as Hh. destruct (lstrip t) as [|c u] eqn:Hu; [done|].
    rewrite <- (lstrip_rstrip_head c u Hh).
    apply lstrip_head.
  - apply rstrip_last.
Qed.

End NormalizerMore.

Section Suffix.

Import Fnmatch.






Lemma lower_app (a b : pystr) : lower (a ++ b) = lower a ++ lower b.
Proof. unfold lower. apply List.map_app. Qed.

Lemma mp3_any_case_suffix (stem : pystr) : mp3_any_case (stem ++ py ".mp3") = true.
Proof.
  unfold mp3_any_case. rewrite lower_app. apply fnmatch_mp3. by eexists.
Qed.


End Suffix.

Section CoordinatorMore.

Variable E : env.

(** The pre-check pattern of a track. *)
Lemma title_pattern_accepted (t : track) :
  normalize_filename (t_name t) <> [] ->
  contains (py "*" ++ normalize_filename (t_name t) ++ py "*.mp3") (py "**") = false.
Proof. intros Hne. apply no_double_star_around; [apply normalized_no_star | done]. Qed.

Lemma process_track_blank (t : track) (playlist_path : path) (w : world) :
  normalize_filename (t_name t) = [] ->
  process_track E t playlist_path w = (Raise ValueError, w).
Proof.
  intros Hblank. unfold process_track. rewrite Hblank. unfold glob. by mrun.
Qed.

Lemma process_track_returns (t : track) (playlist_path : path) (w : world) :
  normalize_filename (t_name t) <> [] ->
  exists w', process_track E t playlist_path w = (Ok tt, w') /\ dirs w' = dirs w.
Proof.
  intros Hne. unfold process_track.
  set (track_name := normalize_filename (t_name t)) in *.
  set (artist_name := normalize_filename (join (py ", ") (t_artists t))).
  mrun.
  destruct (glob_cases playlist_path (py "*" ++ track_name ++ py "*.mp3") w)
    as [[Hc _] | (_ & l & Hg & _)].
  { unfold track_name in Hc. by rewrite title_pattern_accepted in Hc. }
  rewrite Hg. destruct l as [|q l]; [|by eexists].
  set (duration := Some (t_duration_ms t / 1000)).
  assert (Hres : exists r w1,
             get_youtube_url E track_name artist_name duration w = (Ok r, w1)
             /\ dirs w1 = dirs w).
  { destruct (get_youtube_url_cases E track_name artist_name duration w)
      as [(entries & x & _ & _ & Hrun) | [[Hrun _] | [Hrun _]]]; rewrite Hrun;
      by eexists _, _. }
  destruct Hres as (r & w1 & Hrun & Hd1). rewrite Hrun.
  destruct r as [[|c url]|]; [by eexists | | by eexists].
  set (final := artist_name ++ py " - " ++ track_name).
  destruct (download_track_cases E (c :: url) playlist_path final (emit (ELog Info) w1))
    as (r2 & w2 & Hrun2 & Hd2 & _).
  cbn [emit dirs] in Hd2. rewrite Hrun2. destruct r2 as [f|]; [|eexists; split; [reflexivity|]; wsimpl; congruence].
  unfold path_exists at 1. mrun.
  destruct (_ || _); [|eexists; split; [reflexivity|]; wsimpl; congruence].
  destruct (normalize_audio_outcome E f w2) as (b & w3 & Hrun3 & [Hd3 _]).
  rewrite Hrun3.
  destruct b; eexists; (split; [reflexivity|]); wsimpl; congruence.
Qed.


(** X14: For a track whose title consists of whitespace only (or is empty),
    the pre-check pattern is '**.mp3', which pathlib (as of Python 3.11)
    rejects: _process_track raises ValueError before any search or download,
    leaving the world as it was. *)
Theorem process_track_blank_title (t : track) (playlist_path : path) (w : world) :
  Forall (fun c => isspace c = true) (t_name t) ->
  process_track E t playlist_path w = (Raise ValueError, w).
Proof.
  intros Hsp. apply process_track_blank. unfold normalize_filename.
  by rewrite strip_nil_iff, translate_keeps_space.
Qed.


End CoordinatorMore.

Section FuelFree.

Lemma fuel_free_ret {A} (a : A) : fuel_free (ret a).
Proof. by intros w. Qed.

Lemma fuel_free_raise {A} e : fuel_free (@raise A e).
Proof. by intros w. Qed.

Lemma fuel_free_modify f : fuel_free (modify f).
Proof. by intros w. Qed.

Lemma fuel_free_gets {A} (f : world -> A) : fuel_free (gets f).
Proof. by intros w. Qed.

Lemma fuel_free_os_fault : fuel_free os_fault.
Proof. by intros w. Qed.

Lemma fuel_free_bind {A B} (m : M A) (k : A -> M B) :
  fuel_free m -> (forall a, fuel_free (k a)) -> fuel_free (bind m k).
Proof.
  intros Hm Hk w. unfold bind. specialize (Hm w).
  destruct (m w) as [[a|e|] w']; [apply Hk | done | done].
Qed.

Lemma fuel_free_try {A} (m : M A) (h : exn -> M A) :
  fuel_free m -> (forall e, fuel_free (h e)) -> fuel_free (try_except m h).
Proof.
  intros Hm Hh w. unfold try_except. specialize (Hm w).
  destruct (m w) as [[a|e|] w']; [done | apply Hh | done].
Qed.

Lemma fuel_free_if {A} (b : bool) (m1 m2 : M A) :
  fuel_free m1 -> fuel_free m2 -> fuel_free (if b then m1 else m2).
Proof. by destruct b. Qed.

End FuelFree.

Ltac fuel_free :=
  repeat first
    [ apply fuel_free_ret | apply fuel_free_raise | apply fuel_free_modify
    | apply fuel_free_gets | apply fuel_free_os_fault
    | apply fuel_free_bind | apply fuel_free_try | apply fuel_free_if
    | intros ? ].

Section ArchiveTotal.

Lemma fuel_free_unlink p : fuel_free (unlink p).
Proof. unfold unlink. fuel_free. Qed.

Lemma fuel_free_unlink_all ps : fuel_free (unlink_all ps).
Proof.
  induction ps as [|p ps IH]; cbn [unlink_all]; [apply fuel_free_ret|].
  apply fuel_free_bind; [apply fuel_free_unlink | by intros _].
Qed.

Lemma fuel_free_rmtree d : fuel_free (rmtree d).
Proof.
  unfold rmtree. apply fuel_free_bind; [apply fuel_free_gets|]. intros present.
  apply fuel_free_if; [apply fuel_free_raise|].
  apply fuel_free_bind; [apply fuel_free_gets|]. intros victims.
  apply fuel_free_bind; [apply fuel_free_unlink_all|]. intros _.
  fuel_free.
Qed.

Lemma fuel_free_glob d pat : fuel_free (glob d pat).
Proof. unfold glob. fuel_free. Qed.

Lemma fuel_free_zip_write_all l : fuel_free (zip_write_all l).
Proof.
  induction l as [|p l IH]; cbn [zip_write_all]; [apply fuel_free_ret|].
  apply fuel_free_bind; [unfold zip_write; fuel_free | by intros _].
Qed.

Lemma fuel_free_write_archive pp zp : fuel_free (write_archive pp zp).
Proof.
  unfold write_archive, with_zipfile.
  apply fuel_free_bind; [unfold zip_open; fuel_free|]. intros _.
  apply fuel_free_bind.
  - apply fuel_free_try; [|fuel_free].
    apply fuel_free_bind; [|fuel_free].
    apply fuel_free_bind; [apply fuel_free_glob|]. intros l. apply fuel_free_zip_write_all.
  - intros pending. apply fuel_free_bind; [unfold zip_close; fuel_free|]. intros _.
    destruct pending; fuel_free.
Qed.

(** [_create_zip] returns normally whatever happens. *)
Lemma create_zip_returns pp zp w : exists w', create_zip pp zp w = (Ok tt, w').
Proof.
  assert (Hfree : fuel_free (create_zip_body pp zp)).
  { unfold create_zip_body.
    apply fuel_free_bind; [apply fuel_free_write_archive|]. intros _.
    apply fuel_free_bind; [apply fuel_free_rmtree|]. intros _. unfold log. fuel_free. }
  unfold create_zip, try_except. specialize (Hfree w).
  destruct (create_zip_body pp zp w) as [[[]|e|] w']; [by eexists | by eexists | done].
Qed.

End ArchiveTotal.

Section Pool.

Variable E : env.

Lemma submit_all_tracks (playlist_path : path) (tracks : list track) :
  forall w, exists w',
    submit_all (List.map (fun t => process_track E t playlist_path) tracks) w
    = (Ok (List.map (fun t => if blank_title t then Some ValueError else None) tracks), w')
    /\ dirs w' = dirs w.
Proof.
  induction tracks as [|t tracks IH]; intros w; [by eexists|].
  cbn [List.map submit_all]. mrun. unfold blank_title at 1.
  case_bool_decide as Hb.
  - rewrite (process_track_blank E t playlist_path w Hb).
    destruct (IH w) as (w' & Hrun & Hd). rewrite Hrun. by eexists.
  - destruct (process_track_returns E t playlist_path w Hb) as (w1 & Hrun1 & Hd1).
    rewrite Hrun1. destruct (IH w1) as (w' & Hrun & Hd). rewrite Hrun.
    eexists. split; [reflexivity | congruence].
Qed.

Lemma await_all_tracks (tracks : list track) (w : world) :
  await_all (List.map (fun t => if blank_title t then Some ValueError else None) tracks) w
  = (if existsb blank_title tracks then Raise ValueError else Ok tt, w).
Proof.
  induction tracks as [|t tracks IH]; [reflexivity|].
  cbn [List.map await_all existsb]. by destruct (blank_title t).
Qed.


(** X17: Once the catalog has returned the playlist, the directory was made
    and the tracks were listed, download_playlist returns None if some
    listed track has a blank title and otherwise the path
    DOWNLOADS_DIR/<name>.zip, whatever happened to the single units and to
    the archive. *)
Theorem download_playlist_outcome (fuel : nat) (playlist_url : list N) (w w1 w2 : world)
    (pl : playlist) (tracks : list track) :
  let playlist_name := normalize_filename (pl_name pl) in
  let playlist_path := joinpath (downloads_dir E) playlist_name in
  let zip_path := joinpath (downloads_dir E) (playlist_name ++ py ".zip") in
  sp_playlist E (playlist_id_of playlist_url) = Some pl ->
  mkdir playlist_path w = (Ok tt, w1) ->
  get_all_tracks E fuel (playlist_id_of playlist_url) 0 [] (emit (ELog Info) w1)
  = (Ok tracks, w2) ->
  fst (download_playlist E fuel playlist_url w)
  = if existsb blank_title tracks then Ok None else Ok (Some zip_path).
Proof.
  intros playlist_name playlist_path zip_path Hcat Hmk Hget.
  unfold download_playlist, prepare_playlist. rewrite Hcat.
  fold playlist_name playlist_path zip_path. mrun. rewrite Hmk. mrun. rewrite Hget.
  destruct (submit_all_tracks playlist_path tracks (emit (ELog Info) w2))
    as (w3 & Hrun & _).
  rewrite Hrun, await_all_tracks.
  destruct (existsb blank_title tracks); [reflexivity|].
  destruct (create_zip_returns playlist_path zip_path w3) as (w4 & Hzip).
  by rewrite Hzip.
Qed.

End Pool.

Section Catalog.

Variable E : env.

Lemma get_all_tracks_from (playlist_id : list N) (pages : list page) :
  forall (fuel : nat) (k : nat) (acc : list track) (w : world),
    pages <> [] ->
    (forall i p, pages !! i = Some p ->
       sp_playlist_items E playlist_id (100 * Z.of_nat (k + i)) = Some p
       /\ next p = bool_decide (S i < length pages)%nat) ->
    (length pages <= fuel)%nat ->
    get_all_tracks E fuel playlist_id (100 * Z.of_nat k) acc w
    = (Ok (acc ++ concat (List.map (fun p => omap id (items p)) pages)), w).
Proof.
  induction pages as [|p pages IH]; intros fuel k acc w Hne Hpages Hfuel; [done|].
  destruct fuel as [|fuel]; [cbn in Hfuel; lia|].
  cbn [get_all_tracks].
  destruct (Hpages 0%nat p eq_refl) as [Hp Hnext].
  rewrite Nat.add_0_r in Hp. rewrite Hp, Hnext.
  destruct pages as [|p' pages].
  - cbn. by rewrite app_nil_r.
  - rewrite bool_decide_eq_true_2 by (cbn; lia). cbn [negb].
    replace (100 * Z.of_nat k + 100) with (100 * Z.of_nat (S k)) by lia.
    rewrite (IH fuel (S k)); [| done | | cbn in *; lia].
    + cbn [List.map concat]. by rewrite <- app_assoc.
    + intros i q Hq. destruct (Hpages (S i) q Hq) as [H1 H2].
      split; [by replace (S k + i)%nat with (k + S i)%nat by lia|].
      rewrite H2. apply bool_decide_ext. cbn [length]. lia.
Qed.

(** X18: If the catalog serves the playlist as pages at the offsets 0, 100,
    200, ... whose 'next' is set on all but the last, _get_all_tracks
    returns the tracks of all pages in order, items without a track left
    out, and touches nothing else. *)
Theorem get_all_tracks_collects_pages (playlist_id : list N) (pages : list page)
    (fuel : nat) (w : world) :
  pages <> [] ->
  (forall i p, pages !! i = Some p ->
     sp_playlist_items E playlist_id (100 * Z.of_nat i) = Some p
     /\ next p = bool_decide (S i < length pages)%nat) ->
  (length pages <= fuel)%nat ->
  get_all_tracks E fuel playlist_id 0 [] w
  = (Ok (concat (List.map (fun p => omap id (items p)) pages)), w).
Proof.
  intros Hne Hpages Hfuel.
  exact (get_all_tracks_from playlist_id pages fuel 0 [] w Hne Hpages Hfuel).
Qed.

(** X19: If the catalog returns the playlist but raises on the first page of
    its items, download_playlist returns None after logging the error, and
    the playlist directory it had already made is left behind. *)
Theorem download_playlist_listing_error (fuel : nat) (playlist_url : list N)
    (w w1 : world) (pl : playlist) :
  let playlist_path := joinpath (downloads_dir E) (normalize_filename (pl_name pl)) in
  sp_playlist E (playlist_id_of playlist_url) = Some pl ->
  mkdir playlist_path w = (Ok tt, w1) ->
  sp_playlist_items E (playlist_id_of playlist_url) 0 = None ->
  (0 < fuel)%nat ->
  download_playlist E fuel playlist_url w
  = (Ok None, emit (ELog Error) (emit (ELog Info) w1))
  /\ playlist_path ∈ dirs w1.
Proof.
  intros playlist_path Hcat Hmk Hitems Hfuel. split.
  - unfold download_playlist, prepare_playlist. rewrite Hcat. fold playlist_path.
    mrun. rewrite Hmk. mrun. destruct fuel as [|fuel]; [lia|].
    cbn [get_all_tracks]. by rewrite Hitems.
  - revert Hmk. unfold mkdir, os_fault, pop_fault. mrun. wsimpl.
    destruct (_ || _); intros [= <-]. wsimpl. in_set.
Qed.

End Catalog.

Section ArchiveSuccess.

Lemma zip_write_all_quiet (l : list path) :
  forall w,
    faults w = [] -> (forall q, q ∈ l -> q ∈ files w) ->
    exists w',
      zip_write_all l w = (Ok tt, w')
      /\ files w' = files w /\ dirs w' = dirs w /\ faults w' = []
      /\ trace w' = rev (List.map (fun q => EZipWrite (name q)) l) ++ trace w.
Proof.
  induction l as [|p l IH]; intros w Hfa Hin; [by eexists|].
  cbn [zip_write_all]. unfold zip_write at 1, os_fault, pop_fault. mrun. wsimpl.
  rewrite Hfa. wsimpl.
  rewrite bool_decide_eq_true_2 by (apply Hin; by left). wsimpl.
  destruct (IH (emit (EZipWrite (name p))
                  {| files := files w; dirs := dirs w; faults := []; trace := trace w |}))
    as (w' & Hrun & Hf & Hd & Hfa' & Htr).
  { done. }
  { intros q Hq. wsimpl. apply Hin. by right. }
  rewrite Hrun. exists w'. split; [reflexivity|]. repeat split; try done.
  rewrite Htr. cbn [List.map rev emit trace]. by rewrite <- app_assoc.
Qed.

Lemma unlink_all_quiet (l : list path) :
  forall w,
    faults w = [] -> NoDup l -> (forall q, q ∈ l -> q ∈ files w) ->
    exists w',
      unlink_all l w = (Ok tt, w')
      /\ (forall q, q ∈ files w' <-> q ∈ files w /\ q ∉ l)
      /\ dirs w' = dirs w /\ faults w' = []
      /\ (forall n, EZipWrite n ∈ trace w' <-> EZipWrite n ∈ trace w).
Proof.
  induction l as [|p l IH]; intros w Hfa Hnd Hin.
  { exists w. split; [reflexivity|]. split; [|by repeat split].
    intros q. split; [|tauto]. intros Hq. split; [done | apply not_elem_of_nil]. }
  apply NoDup_cons in Hnd as [Hp Hnd].
  cbn [unlink_all]. mrun.
  destruct (unlink_cases p w) as (w1 & [(Hr & Hf & _) | (Hr & Hf)] & Hd & Htr & Hfa1).
  2:{ exfalso. revert Hr. unfold unlink, os_fault, pop_fault. mrun. wsimpl.
      rewrite Hfa. wsimpl. rewrite bool_decide_eq_true_2 by (apply Hin; by left).
      wsimpl. discriminate. }
  rewrite Hr.
  destruct (IH w1) as (w' & Hrun & Hf' & Hd' & Hfa' & Htr').
  { by rewrite Hfa1, Hfa. }
  { done. }
  { intros q Hq. rewrite Hf. apply elem_of_difference. split; [apply Hin; by right|].
    rewrite elem_of_singleton. by intros ->. }
  rewrite Hrun. exists w'. split; [reflexivity|].
  split; [|split; [congruence | split; [done|]]].
  - intros q. rewrite Hf', Hf, elem_of_difference, elem_of_singleton, elem_of_cons. tauto.
  - intros n. rewrite Htr', Htr, elem_of_cons. split; [intros [?|?]; [discriminate|done] | tauto].
Qed.

(** [_create_zip] when the operating system lets every call through. *)
Lemma create_zip_quiet (playlist_path zip_path : path) (w : world) :
  faults w = [] ->
  playlist_path ∈ dirs w ->
  zip_path ∉ dirs w ->
  parent_exists zip_path w ->
  exists w',
    create_zip playlist_path zip_path w = (Ok tt, w')
    /\ (forall q, q ∈ files w' <->
          (q ∈ files w \/ q = zip_path) /\ under playlist_path q = false)
    /\ (forall q, q ∈ dirs w' <-> q ∈ dirs w /\ under playlist_path q = false)
    /\ (forall n, EZipWrite n ∈ trace w' <->
          EZipWrite n ∈ trace w
          \/ exists q, (q ∈ files w \/ q = zip_path) /\ parent q = parts playlist_path
                       /\ (exists stem, name q = stem ++ py ".mp3") /\ name q = n).
Proof.
  intros Hfa Hpp Hzp Hpar.
  assert (Horphan : match parent zip_path with
                    | [] => false
                    | _ => negb (bool_decide (∃ d, d ∈ dirs w /\ parts d = parent zip_path))
                    end = false).
  { destruct Hpar as [-> | Hd]; [done|].
    destruct (parent zip_path); [done|]. by rewrite (bool_decide_eq_true_2 _ Hd). }
  unfold create_zip, create_zip_body, write_archive, with_zipfile.
  unfold zip_open, zip_close, os_fault, pop_fault. mrun. wsimpl. rewrite Hfa. wsimpl.
  rewrite (bool_decide_eq_false_2 _ Hzp), Horphan. wsimpl.
  set (w1 := set_files _ _).
  destruct (glob_cases playlist_path (py "*.mp3") w1) as [[Hc _] | (_ & l & Hg & Hl)];
    [by vm_compute in Hc|].
  rewrite Hg.
  destruct (zip_write_all_quiet l w1) as (w2 & Hrun2 & Hf2 & Hd2 & Hfa2 & Htr2).
  { done. }
  { intros q Hq. by apply Hl in Hq as [? _]. }
  rewrite Hrun2, Hfa2. wsimpl.
  set (w3 := {| files := files w2 |}).
  unfold rmtree. mrun. subst w3. wsimpl.
  rewrite Hd2. unfold w1 at 1. wsimpl.
  rewrite (bool_decide_eq_true_2 _ Hpp). wsimpl.
  set (w3 := {| files := files w2 |}).
  set (victims := elements _).
  destruct (unlink_all_quiet victims w3) as (w4 & Hrun4 & Hf4 & Hd4 & Hfa4 & Htr4).
  { done. }
  { apply NoDup_elements. }
  { intros q Hq. unfold victims in Hq. by apply elem_of_elements, elem_of_filter in Hq as [_ ?]. }
  rewrite Hrun4. unfold os_fault, pop_fault. wsimpl. rewrite Hfa4. wsimpl.
  eexists. split; [reflexivity|]. wsimpl.
  assert (Hvict : forall q, q ∈ victims <-> under playlist_path q = true /\ q ∈ files w1).
  { intros q. unfold victims. rewrite elem_of_elements, elem_of_filter.
    subst w3. wsimpl. by rewrite Hf2. }
  assert (Hw1 : forall q, q ∈ files w1 <-> q ∈ files w \/ q = zip_path).
  { intros q. unfold w1. wsimpl. by rewrite elem_of_union, elem_of_singleton. }
  split; [|split].
  - intros q. rewrite Hf4. subst w3. wsimpl. rewrite Hf2, Hvict, Hw1.
    destruct (under playlist_path q); intuition congruence.
  - intros q. rewrite elem_of_filter, Hd4. subst w3. wsimpl. unfold w1. wsimpl. tauto.
  - intros n. rewrite elem_of_cons, Htr4. subst w3. wsimpl. rewrite Htr2.
    rewrite elem_of_app. change (trace w1) with (trace w).
    rewrite list_elem_of_In, <- in_rev, in_map_iff.
    split.
    + intros [H | [(q & Hn & Hq) | H]]; [discriminate | | by left].
      right. apply list_elem_of_In, Hl in Hq as (Hq1 & Hq2 & Hq3).
      exists q. apply Hw1 in Hq1.
      split; [done|]. split; [done|]. split; [by apply fnmatch_mp3 | congruence].
    + intros [H | (q & Hq1 & Hq2 & Hq3 & Hq4)]; [tauto|].
      right; left. exists q. split; [by rewrite Hq4|].
      apply list_elem_of_In, Hl. split; [by apply Hw1|]. split; [done|].
      by apply fnmatch_mp3.
Qed.

Lemma under_parent (d q : path) : parent q = parts d -> under d q = true.
Proof.
  intros Hq. unfold under. apply bool_decide_eq_true. unfold parts at 2. rewrite Hq.
  by apply prefix_app_r.
Qed.

(** X20: When the operating system reports no failure, the playlist
    directory exists, the archive path is not a directory, lies outside it
    and is in a directory that exists, and every entry directly in the
    playlist directory whose name ends in .mp3 in any letter case is a
    regular file whose name ends in lower-case .mp3 (no sub-directory
    album.mp3, no x.MP3), _create_zip returns with the archive file present,
    everything at or below the playlist directory removed, everything else
    unchanged, and the names written into the archive are exactly those of
    the entries of the directory that end in .mp3. *)
Theorem create_zip_success (playlist_path zip_path : path) (w : world) :
  faults w = [] ->
  playlist_path ∈ dirs w ->
  zip_path ∉ dirs w ->
  parent_exists zip_path w ->
  under playlist_path zip_path = false ->
  (forall q, entry_of playlist_path w q -> mp3_any_case (name q) = true ->
     q ∈ files w /\ (q ∉ dirs w) /\ Fnmatch.fnmatchcase (name q) (py "*.mp3") = true) ->
  exists w',
    create_zip playlist_path zip_path w = (Ok tt, w')
    /\ zip_path ∈ files w'
    /\ (forall q, under playlist_path q = true -> (q ∉ files w') /\ (q ∉ dirs w'))
    /\ (forall q, under playlist_path q = false ->
          (q ∈ files w' <-> q ∈ files w \/ q = zip_path)
          /\ (q ∈ dirs w' <-> q ∈ dirs w))
    /\ (forall n, EZipWrite n ∈ trace w' <->
          EZipWrite n ∈ trace w
          \/ exists q, entry_of playlist_path w q /\ mp3_any_case (name q) = true
                       /\ name q = n).
Proof.
  intros Hfa Hpp Hzp Hthere Hout Hent.
  destruct (create_zip_quiet playlist_path zip_path w Hfa Hpp Hzp Hthere)
    as (w' & Hrun & Hf & Hd & Htr).
  exists w'. split; [done|]. split; [|split; [|split]].
  - apply Hf. split; [by right | done].
  - intros q Hq. split.
    + rewrite Hf, Hq. by intros [_ ?].
    + rewrite Hd, Hq. by intros [_ ?].
  - intros q Hq. rewrite Hf, Hd, Hq. tauto.
  - intros n. rewrite Htr. split; (intros [H | (q & H)]; [by left | right; exists q]).
    + destruct H as ([Hq | ->] & Hpar & [stem Hstem] & Hn).
      * split; [split; [by left | done]|]. split; [|done].
        rewrite Hstem. apply mp3_any_case_suffix.
      * exfalso. apply under_parent in Hpar. congruence.
    + destruct H as (Hq & Hany & Hn). destruct (Hent q Hq Hany) as (Hfile & _ & Hstem).
      destruct Hq as [_ Hpar]. apply fnmatch_mp3 in Hstem. by repeat split; [left | | |].
Qed.

(** X21: For a playlist whose name is blank, the playlist directory
    download_playlist uses is DOWNLOADS_DIR itself and the archive is
    DOWNLOADS_DIR/.zip: when nothing fails, _create_zip removes the whole
    downloads directory, the archive it has just written included. *)
Theorem create_zip_blank_playlist_name (E : env) (pl : playlist) (w : world) :
  let playlist_name := normalize_filename (pl_name pl) in
  let playlist_path := joinpath (downloads_dir E) playlist_name in
  let zip_path := joinpath (downloads_dir E) (playlist_name ++ py ".zip") in
  Forall (fun c => isspace c = true) (pl_name pl) ->
  faults w = [] ->
  downloads_dir E ∈ dirs w ->
  zip_path ∉ dirs w ->
  exists w',
    create_zip playlist_path zip_path w = (Ok tt, w')
    /\ (zip_path ∉ files w')
    /\ (downloads_dir E ∉ dirs w')
    /\ (forall q, under (downloads_dir E) q = true -> q ∉ files w').
Proof.
  intros playlist_name playlist_path zip_path Hblank Hfa Hpp Hzp.
  assert (Hname : playlist_name = []).
  { unfold playlist_name, normalize_filename.
    by rewrite strip_nil_iff, translate_keeps_space. }
  subst playlist_path zip_path. rewrite Hname in *. clear Hname playlist_name.
  cbn [joinpath] in *.
  destruct (create_zip_quiet (downloads_dir E) _ w Hfa Hpp Hzp)
    as (w' & Hrun & Hf & Hd & _).
  { right. by exists (downloads_dir E). }
  assert (Hself : forall d, under d d = true).
  { intros d. by apply bool_decide_eq_true. }
  exists w'. split; [done|]. split; [|split].
  - rewrite Hf. intros [_ Hu]. by rewrite (under_parent (downloads_dir E)) in Hu.
  - rewrite Hd. intros [_ Hu]. by rewrite (Hself (downloads_dir E)) in Hu.
  - intros q Hq. rewrite Hf. intros [_ Hu]. congruence.
Qed.

End ArchiveSuccess.

Section PlaylistId.

Lemma split_nonempty sep s : split sep s <> [].
Proof.
  induction s as [|c s IH]; cbn; [done|].
  destruct (c =? sep)%N; [done|]. by destruct (split sep s).
Qed.

Lemma split_no_sep sep s : sep ∉ s -> split sep s = [s].
Proof.
  induction s as [|c s IH]; intros Hs; [done|]. cbn.
  rewrite (proj2 (N.eqb_neq c sep)) by (intros ->; apply Hs; by left).
  rewrite IH; [done|]. intros H. apply Hs. by right.
Qed.

Lemma split_app_sep sep pre tail :
  split sep (pre ++ sep :: tail) = split sep pre ++ split sep tail.
Proof.
  induction pre as [|c pre IH]; cbn [app split].
  - by rewrite N.eqb_refl.
  - rewrite IH. destruct (c =? sep)%N; [done|].
    pose proof (split_nonempty sep pre). by destruct (split sep pre).
Qed.

Lemma last_app_nonempty (l1 l2 : list (list N)) :
  l2 <> [] -> List.last (l1 ++ l2) [] = List.last l2 [].
Proof.
  intros Hne. induction l1 as [|a l1 IH]; [done|].
  cbn [app]. rewrite <- IH. cbn. destruct (l1 ++ l2) eqn:Hl; [|done].
  by apply app_eq_nil in Hl as [_ ?].
Qed.

Lemma last_split_after sep pre tail :
  List.last (split sep (pre ++ sep :: tail)) [] = List.last (split sep tail) [].
Proof. rewrite split_app_sep. apply last_app_nonempty, split_nonempty. Qed.

Lemma hd_split_before sep s tail :
  sep ∉ s -> hd [] (split sep (s ++ sep :: tail)) = s.
Proof.
  induction s as [|c s IH]; intros Hs; cbn [app split].
  - by rewrite N.eqb_refl.
  - rewrite (proj2 (N.eqb_neq c sep)) by (intros ->; apply Hs; by left).
    assert (Hs' : sep ∉ s) by (intros H; apply Hs; by right).
    specialize (IH Hs'). pose proof (split_nonempty sep (s ++ sep :: tail)).
    destruct (split sep (s ++ sep :: tail)); [done|]. cbn in *. by rewrite IH.
Qed.

(** X22: For a playlist URL <base>/<id>?<query> or <base>/<id>, where the id
    holds neither '/' nor '?' and the query no '/', the identifier
    download_playlist passes to the catalog is <id>. *)
Theorem playlist_id_of_url (base id query : list N) :
  47%N ∉ id -> 63%N ∉ id -> 47%N ∉ query ->
  playlist_id_of (base ++ [47%N] ++ id ++ [63%N] ++ query) = id
  /\ playlist_id_of (base ++ [47%N] ++ id) = id.
Proof.
  intros Hslash Hq Hslash'. unfold playlist_id_of. cbn [app]. split.
  - rewrite last_split_after, (split_no_sep 47).
    + cbn [List.last]. by apply hd_split_before.
    + rewrite elem_of_app, elem_of_cons. intros [? | [? | ?]]; done.
  - rewrite last_split_after, (split_no_sep 47) by done. cbn [List.last].
    by rewrite split_no_sep.
Qed.

(** X23: Whatever the URL, the identifier download_playlist extracts from it
    contains neither '/' nor '?'. *)
Theorem playlist_id_of_clean (playlist_url : list N) :
  (47%N ∉ playlist_id_of playlist_url) /\ (63%N ∉ playlist_id_of playlist_url).
Proof.
  assert (Hpieces : forall sep s p, p ∈ split sep s -> sep ∉ p).
  { intros sep. induction s as [|c s IH]; cbn; intros p Hp.
    - apply list_elem_of_singleton in Hp as ->. apply not_elem_of_nil.
    - destruct (c =? sep)%N eqn:Hc.
      + apply elem_of_cons in Hp as [-> | Hp]; [apply not_elem_of_nil | by apply IH].
      + apply N.eqb_neq in Hc. pose proof (split_nonempty sep s).
        destruct (split sep s) as [|p0 ps]; [done|].
        apply elem_of_cons in Hp as [-> | Hp].
        * rewrite elem_of_cons. intros [? | ?]; [congruence|].
          by apply (IH p0); [left|].
        * apply IH. by right. }
  assert (Hsub : forall sep s p, p ∈ split sep s -> p ⊆ s).
  { intros sep. induction s as [|c s IH]; cbn; intros p Hp.
    - by apply list_elem_of_singleton in Hp as ->.
    - destruct (c =? sep)%N.
      + apply elem_of_cons in Hp as [-> | Hp]; [by intros ? ?%elem_of_nil|].
        intros x Hx. right. by eapply IH.
      + pose proof (split_nonempty sep s).
        destruct (split sep s) as [|p0 ps]; [done|].
        apply elem_of_cons in Hp as [-> | Hp].
        * intros x [-> | Hx]%elem_of_cons; [by left|]. right. eapply IH; [by left | done].
        * intros x Hx. right. eapply IH; [by right | done]. }
  assert (Hlast : forall (l : list (list N)), l <> [] -> List.last l [] ∈ l).
  { induction l as [|a [|b l] IH]; intros Hne; [done | by left |].
    right. by apply IH. }
  assert (Hhd : forall (l : list (list N)), l <> [] -> hd [] l ∈ l).
  { intros [|a l] Hne; [done | by left]. }
  unfold playlist_id_of.
  set (seg := List.last (split 47 playlist_url) []).
  assert (Hseg : 47%N ∉ seg).
  { apply (Hpieces 47%N playlist_url). apply Hlast, split_nonempty. }
  assert (Hid : hd [] (split 63 seg) ∈ split 63 seg) by apply Hhd, split_nonempty.
  split.
  - intros H. apply Hseg. by eapply Hsub.
  - by eapply Hpieces.
Qed.

End PlaylistId.

(** ** System setup *)

Module SetupFacts.

Import Setup.
Local Open Scope setup_scope.

Ltac srun :=
  cbv beta iota zeta delta
    [Setup.bind Setup.try_except Setup.ret Setup.throw Setup.say Setup.act fst snd].

Section OnHost.

Variable H : host.

Lemma extends_refl m : extends [] m m.
Proof. by repeat split. Qed.

Lemma extends_trans new1 new2 m1 m2 m3 :
  extends new1 m1 m2 -> extends new2 m2 m3 -> extends (new2 ++ new1) m1 m3.
Proof.
  intros (H1 & H2 & H3) (H4 & H5 & H6). repeat split; try congruence.
  rewrite H4, H1. by rewrite <- app_assoc.
Qed.

(** One version probe inside its [try]: the answer and the action. *)
Lemma probe_cases (m : machine) :
  let probe :=
    try_except
      (returncode <- run H FfmpegVersion ;;
       if returncode =? 0 then say Info ;;; ret true else ret false)
      (fun e => match e with
                | TimeoutExpired | FileNotFoundError => ret false
                | OtherError => throw e
                end) in
  exists r m' new,
    probe m = (r, m') /\ extends new m m'
    /\ runs new = [Run FfmpegVersion] /\ sleeps new = 0%nat
    /\ match respond H (done m) FfmpegVersion with
       | Exits rc => r = Done (rc =? 0)
       | TimesOut | NotFound => r = Done false
       | Fails => r = Throws OtherError
       end
    /\ (r = Done true -> new = [Say Info; Run FfmpegVersion]).
Proof.
  intros probe. subst probe. unfold run. srun.
  destruct (respond H (done m) FfmpegVersion) as [rc| | |]; srun.
  - destruct (rc =? 0); srun.
    + eexists _, _, [Say Info; Run FfmpegVersion]. by repeat split.
    + eexists _, _, [Run FfmpegVersion]. by repeat split.
  - eexists _, _, [Run FfmpegVersion]. by repeat split.
  - eexists _, _, [Run FfmpegVersion]. by repeat split.
  - eexists _, _, [Run FfmpegVersion]. by repeat split.
Qed.

Lemma verified_after new m m1 m' :
  extends new m m1 -> verified_between H m1 m' -> verified_between H m m'.
Proof.
  intros (Hd & _) (before & after & Hd' & Hok & Hquiet).
  exists (before ++ new), after. rewrite <- app_assoc, <- Hd. by repeat split.
Qed.

Lemma verified_before new m m1 m' :
  verified_between H m m1 -> extends new m1 m' -> runs new = [] ->
  verified_between H m m'.
Proof.
  intros (before & after & Hd & Hok & Hquiet) (Hd' & _) Hnew.
  exists before, (new ++ after). rewrite Hd', Hd, <- app_assoc.
  repeat split; try done. unfold runs in *. by rewrite List.filter_app, Hnew, Hquiet.
Qed.

Lemma refresh_cases (m : machine) :
  exists b m' new,
    refresh_environment_path H m = (Done b, m') /\ extends new m m'
    /\ runs new = [] /\ sleeps new = 0%nat.
Proof.
  unfold refresh_environment_path. destruct (registry_readable H (done m)); srun.
  - eexists _, _, [Say Info; RefreshPath true]. by repeat split.
  - eexists _, _, [Say Debug; RefreshPath false]. by repeat split.
Qed.

(** The retry loop over the attempts [a], [a+1], ... up to the last one. *)
Lemma verify_seq (max_retries delay : Z) (len : nat) :
  forall (a : nat) (m : machine),
    (a + len)%nat = Z.to_nat max_retries ->
    exists r m' new k,
      verify_attempts H max_retries delay (seq a len) m = (r, m')
      /\ extends new m m'
      /\ runs new = replicate k (Run FfmpegVersion)
      /\ (k <= len)%nat /\ ((0 < len)%nat -> (0 < k)%nat)
      /\ sleeps new = (k - 1)%nat
      /\ (r = Done true -> verified_between H m m')
      /\ (r = Done false -> k = len)
      /\ (forall e, r = Throws e ->
            e = OtherError
            /\ exists before, respond H (before ++ done m) FfmpegVersion = Fails).
Proof.
  induction len as [|len IH]; intros a m Hlen.
  { exists (Done false), m, [], 0%nat. cbn. repeat split; try done; try lia.
    all: discriminate. }
  cbn [seq verify_attempts].
  destruct (probe_cases m) as (r0 & m0 & new0 & Hrun0 & Hext0 & Hruns0 & Hp0 & Hr0 & Htrue0).
  cbn zeta in Hrun0. unfold bind at 1. rewrite Hrun0.
  destruct r0 as [[|]|e0].
  - (* verified *)
    exists (Done true), m0, new0, 1%nat. split; [reflexivity|].
    split; [exact Hext0|]. split; [exact Hruns0|]. split; [lia|]. split; [lia|].
    split; [rewrite Hp0; lia|]. split; [|split; [discriminate|discriminate]].
    intros _. exists [], [Say Info]. cbn [app].
    destruct Hext0 as (Hd0 & _). rewrite Hd0, (Htrue0 eq_refl). split; [done|].
    split; [|done].
    destruct (respond H (done m) FfmpegVersion) as [rc| | |]; try discriminate.
    injection Hr0 as Hrc. symmetry in Hrc. apply Z.eqb_eq in Hrc. by subst.
  - (* this probe failed *)
    set (more := (Z.of_nat a <? max_retries - 1)).
    assert (Hblock : exists m1 new1,
              (if more then say Info ;;; refresh_environment_path H ;;; act (Pause delay)
               else ret tt) m0 = (Done tt, m1)
              /\ extends new1 m0 m1 /\ runs new1 = []
              /\ sleeps new1 = if more then 1%nat else 0%nat).
    { destruct more.
      - srun. destruct (refresh_cases (act (Say Info) m0).2)
          as (b & m1 & new1 & Hr & Hext & Hq & Hp).
        cbn [act snd] in Hr. rewrite Hr.
        eexists _, (Pause delay :: new1 ++ [Say Info]).
        split; [reflexivity|]. destruct Hext as (Hd & He & Hf). cbn in Hd, He, Hf.
        split; [|split].
        + split; [|split]; cbn; try done. by rewrite Hd, <- app_assoc.
        + unfold runs in *. cbn. rewrite List.filter_app, Hq. done.
        + unfold sleeps in *. cbn. rewrite List.filter_app, length_app, Hp. done.
      - exists m0, []. split; [done|]. split; [apply extends_refl|]. by split. }
    destruct Hblock as (m1 & new1 & Hrun1 & Hext1 & Hq1 & Hp1).
    unfold bind at 1. rewrite Hrun1.
    destruct (IH (Datatypes.S a) m1) as (r & m' & new & k & Hrun & Hext & Hruns & Hk & Hk0 & Hp & Ht & Hf & He);
      [lia|].
    rewrite Hrun.
    exists r, m', (new ++ new1 ++ new0), (Datatypes.S k).
    pose proof (extends_trans _ _ _ _ _ Hext0 Hext1) as Hext01.
    split; [reflexivity|]. split; [by eapply extends_trans|].
    assert (Hmore : more = true <-> (0 < len)%nat).
    { unfold more. rewrite Z.ltb_lt. lia. }
    split; [|split; [lia|split; [lia|split; [|split; [|split]]]]].
    + unfold runs in *. rewrite !List.filter_app, Hruns, Hq1, Hruns0. cbn [app].
      change [Run FfmpegVersion] with (replicate 1 (Run FfmpegVersion)).
      by rewrite <- replicate_add, Nat.add_1_r.
    + unfold sleeps in *. rewrite !List.filter_app, !length_app, Hp, Hp1, Hp0.
      destruct more.
      * assert (0 < k)%nat by (apply Hk0, Hmore; done). lia.
      * assert (len = 0)%nat by (destruct len; [done|]; exfalso;
          assert (true = false) by (symmetry; apply Hmore; lia); done). lia.
    + intros Hr. eapply verified_after; [exact Hext01 | by apply Ht].
    + intros Hr. by rewrite (Hf Hr).
    + intros e Hr. apply He in Hr as [-> (before & Hb)]. split; [done|].
      destruct Hext01 as (Hd & _). rewrite Hd, app_assoc in Hb. by eexists.
  - (* another exception escapes *)
    exists (Throws e0), m0, new0, 1%nat. split; [reflexivity|].
    assert (He0 : e0 = OtherError /\ respond H (done m) FfmpegVersion = Fails).
    { destruct (respond H (done m) FfmpegVersion) as [rc| | |]; try discriminate.
      by injection Hr0 as <-. }
    split; [exact Hext0|]. split; [exact Hruns0|]. split; [lia|]. split; [lia|].
    split; [rewrite Hp0; lia|]. split; [discriminate|split; [discriminate|]].
    intros e [= <-]. split; [tauto|]. exists []. tauto.
Qed.

Lemma verify_spec (max_retries delay : Z) (m : machine) :
  exists r m' new k,
    verify_ffmpeg_with_retry H max_retries delay m = (r, m')
    /\ extends new m m'
    /\ runs new = replicate k (Run FfmpegVersion)
    /\ (k <= Z.to_nat max_retries)%nat
    /\ sleeps new = (k - 1)%nat
    /\ (r = Done true -> verified_between H m m')
    /\ (r = Done false -> k = Z.to_nat max_retries)
    /\ (forall e, r = Throws e ->
          e = OtherError
          /\ exists before, respond H (before ++ done m) FfmpegVersion = Fails).
Proof.
  destruct (verify_seq max_retries delay (Z.to_nat max_retries) 0 m eq_refl)
    as (r & m' & new & k & Hrun & Hext & Hruns & Hk & _ & Hp & Ht & Hf & He).
  by exists r, m', new, k.
Qed.

Lemma probes_runs new : probes new = probes (runs new).
Proof.
  unfold probes, runs. induction new as [|[[]| | |] new IH]; cbn; congruence.
Qed.

Lemma installs_runs new : installs new = installs (runs new).
Proof.
  unfold installs, runs. induction new as [|[[]| | |] new IH]; cbn; congruence.
Qed.

Lemma probes_only k new :
  runs new = replicate k (Run FfmpegVersion) -> probes new = k /\ installs new = [].
Proof.
  intros Hr. rewrite probes_runs, installs_runs, Hr. clear.
  unfold probes, installs. induction k as [|k [IH1 IH2]]; [done|]. cbn. by rewrite IH1, IH2.
Qed.

Lemma probes_app a b : probes (a ++ b) = (probes a + probes b)%nat.
Proof. unfold probes. by rewrite List.filter_app, length_app. Qed.

Lemma sleeps_app a b : sleeps (a ++ b) = (sleeps a + sleeps b)%nat.
Proof. unfold sleeps. by rewrite List.filter_app, length_app. Qed.

Lemma installs_app a b : installs (a ++ b) = installs a ++ installs b.
Proof. apply omap_app. Qed.

Lemma runs_app a b : runs (a ++ b) = runs a ++ runs b.
Proof. apply List.filter_app. Qed.

(** One pass of the installer loop, inside its [try]. *)
Lemma install_one (method : installer) (m : machine) :
  let attempt :=
    try_except
      (say Info ;;;
       returncode <- run H (InstallFfmpeg method) ;;
       if returncode =? 0 then
         say Info ;;; say Info ;;;
         verified <- verify_ffmpeg_with_retry H 3 2 ;;
         if (verified : bool) then say Info ;;; ret true
         else say Warning ;;; ret false
       else ret false)
      (fun e => match e with
                | TimeoutExpired | FileNotFoundError => say Debug ;;; ret false
                | OtherError => throw e
                end) in
  exists r m' new,
    attempt m = (r, m') /\ extends new m m'
    /\ installs new = [method]
    /\ (probes new <= 3)%nat /\ (sleeps new <= 2)%nat
    /\ (r = Done true -> verified_between H m m')
    /\ (forall e, r = Throws e ->
          e = OtherError /\ exists h c, respond H h c = Fails).
Proof.
  intros attempt. subst attempt. unfold run. srun. cbn [done].
  destruct (respond H (Say Info :: done m) (InstallFfmpeg method)) as [rc| | |] eqn:Hresp; srun.
  - destruct (rc =? 0); srun.
    + match goal with |- context [verify_ffmpeg_with_retry H 3 2 ?m0] =>
        destruct (verify_spec 3 2 m0)
          as (r & m' & new & k & Hrun & Hext & Hruns & Hk & Hp & Ht & Hf & He);
        rewrite Hrun
      end.
      destruct (probes_only _ _ Hruns) as [Hpr Hin].
      destruct Hext as (Hd & Henv & Hattr). cbn in Hd, Henv, Hattr.
      set (pre := [Say Info; Say Info; Run (InstallFfmpeg method); Say Info]) in *.
      assert (Hpre : forall new', installs (new' ++ new ++ pre) = installs new' ++ [method]).
      { intros new'. by rewrite !installs_app, Hin. }
      assert (Hprobe : forall new', (probes (new' ++ new ++ pre) <= probes new' + 3)%nat).
      { intros new'. rewrite !probes_app, Hpr. cbn. change (Z.to_nat 3) with 3%nat in Hk. lia. }
      assert (Hpause : forall new', (sleeps (new' ++ new ++ pre) <= sleeps new' + 2)%nat).
      { intros new'. rewrite !sleeps_app, Hp. cbn. change (Z.to_nat 3) with 3%nat in Hk. lia. }
      destruct r as [[|]|e].
      * eexists _, _, ([Say Info] ++ new ++ pre). split; [reflexivity|].
        split; [split; [|split]; cbn; try done; rewrite Hd; unfold pre; by rewrite <- ?app_assoc|].
        split; [apply Hpre|]. split; [apply Hprobe|]. split; [apply Hpause|].
        split; [|discriminate].
        intros _. eapply (verified_before [Say Info]); [| |done].
        -- eapply (verified_after pre); [|by apply Ht]. by split.
        -- by split.
      * eexists _, _, ([Say Warning] ++ new ++ pre). split; [reflexivity|].
        split; [split; [|split]; cbn; try done; rewrite Hd; unfold pre; by rewrite <- ?app_assoc|].
        split; [apply Hpre|]. split; [apply Hprobe|]. split; [apply Hpause|].
        split; discriminate.
      * destruct (He e eq_refl) as [-> [before Hfails]].
        eexists _, _, ([] ++ new ++ pre). split; [reflexivity|].
        split; [split; [|split]; cbn; try done; rewrite Hd; unfold pre; by rewrite <- ?app_assoc|].
        split; [apply Hpre|]. split; [apply Hprobe|]. split; [apply Hpause|].
        split; [discriminate|]. intros e [= <-]. split; [done|]. by eexists _, _.
    + eexists _, _, [Run (InstallFfmpeg method); Say Info]. split; [reflexivity|].
      split; [by split|]. cbn. repeat split; try lia; discriminate.
  - eexists _, _, [Say Debug; Run (InstallFfmpeg method); Say Info]. split; [reflexivity|].
    split; [by split|]. cbn. repeat split; try lia; discriminate.
  - eexists _, _, [Say Debug; Run (InstallFfmpeg method); Say Info]. split; [reflexivity|].
    split; [by split|]. cbn. repeat split; try lia; discriminate.
  - eexists _, _, [Run (InstallFfmpeg method); Say Info]. split; [reflexivity|].
    split; [by split|]. cbn. repeat split; try lia; try discriminate.
    + by injection H0 as <-.
    + by eexists _, _.
Qed.

(** The installer loop: the installers are started in the order of the
    list, and the loop stops at the first one after which a probe succeeds. *)
Lemma install_attempts_spec (methods : list installer) :
  forall m : machine,
    exists r m' new j,
      install_attempts H methods m = (r, m') /\ extends new m m'
      /\ installs new = rev (take j methods)
      /\ (probes new <= 3 * j)%nat /\ (sleeps new <= 2 * j)%nat
      /\ (r = Done true -> verified_between H m m')
      /\ (r = Done false -> j = length methods)
      /\ (forall e, r = Throws e ->
            e = OtherError /\ exists h c, respond H h c = Fails).
Proof.
  induction methods as [|method rest IH]; intros m.
  { cbn [install_attempts]. srun.
    eexists _, _, [Say Error], 0%nat. split; [reflexivity|]. split; [by split|].
    cbn. repeat split; try lia; discriminate. }
  cbn [install_attempts].
  destruct (install_one method m) as (r0 & m0 & new0 & Hrun0 & Hext0 & Hin0 & Hpr0 & Hpa0 & Ht0 & He0).
  cbn zeta in Hrun0. unfold bind at 1. rewrite Hrun0.
  destruct r0 as [[|]|e0].
  - exists (Done true), m0, new0, 1%nat. split; [reflexivity|]. split; [done|].
    split; [by rewrite Hin0|]. split; [lia|]. split; [lia|].
    split; [done|]. split; discriminate.
  - destruct (IH m0) as (r & m' & new & j & Hrun & Hext & Hin & Hpr & Hpa & Ht & Hf & He).
    rewrite Hrun. exists r, m', (new ++ new0), (Datatypes.S j).
    split; [reflexivity|]. split; [by eapply extends_trans|].
    split; [by rewrite installs_app, Hin, Hin0|].
    split; [rewrite probes_app; lia|]. split; [rewrite sleeps_app; lia|].
    split; [|split; [|done]].
    + intros Hr. eapply verified_after; [exact Hext0 | by apply Ht].
    + intros Hr. cbn. by rewrite (Hf Hr).
  - exists (Throws e0), m0, new0, 1%nat. split; [reflexivity|]. split; [done|].
    split; [by rewrite Hin0|]. split; [lia|]. split; [lia|].
    split; [discriminate|]. split; [discriminate|]. intros e [= <-]. by apply He0.
Qed.


Lemma verify_first_probe (max_retries delay : Z) (m : machine) :
  0 < max_retries ->
  respond H (done m) FfmpegVersion = Exits 0 ->
  verify_ffmpeg_with_retry H max_retries delay m
  = (Done true, (act (Say Info) (act (Run FfmpegVersion) m).2).2).
Proof.
  intros Hpos Hresp. unfold verify_ffmpeg_with_retry.
  destruct (Z.to_nat max_retries) as [|n] eqn:Hn; [lia|].
  cbn [seq verify_attempts]. unfold run. srun. by rewrite Hresp.
Qed.

Lemma check_spec (m : machine) :
  exists r m' new j,
    check_and_install_ffmpeg H m = (r, m') /\ extends new m m'
    /\ installs new = rev (take j [Winget; Scoop; Chocolatey])
    /\ (probes new <= 1 + 3 * j)%nat /\ (sleeps new <= 2 * j)%nat
    /\ (r = Done true -> verified_between H m m')
    /\ (r = Done false -> j = 3%nat)
    /\ (forall e, r = Throws e ->
          e = OtherError /\ exists h c, respond H h c = Fails).
Proof.
  unfold check_and_install_ffmpeg. srun.
  match goal with |- context [verify_ffmpeg_with_retry H 1 2 ?m0] =>
    destruct (verify_spec 1 2 m0)
      as (r & m1 & new & k & Hrun & Hext & Hruns & Hk & Hp & Ht & Hf & He);
    rewrite Hrun
  end.
  destruct (probes_only _ _ Hruns) as [Hpr Hin].
  change (Z.to_nat 1) with 1%nat in *.
  assert (Hext1 : extends (new ++ [Say Info]) m m1).
  { destruct Hext as (Hd & Henv & Hattr). cbn in Hd, Henv, Hattr.
    split; [|done]. by rewrite Hd, <- app_assoc. }
  destruct r as [[|]|e].
  - eexists _, _, ([Say Info] ++ new ++ [Say Info]), 0%nat. split; [reflexivity|].
    split; [|split; [|split; [|split; [|split; [|split]]]]]; try discriminate.
    + destruct Hext1 as (Hd & Henv & Hattr). split; [|done]. cbn. by rewrite Hd.
    + by rewrite !installs_app, Hin.
    + rewrite !probes_app, Hpr. cbn. lia.
    + rewrite !sleeps_app, Hp. cbn. lia.
    + intros _. eapply (verified_before [Say Info]); [| |done].
      * eapply (verified_after [Say Info]); [|by apply Ht]. by split.
      * by split.
  - match goal with |- context [install_attempts H ?ms ?m0] =>
      destruct (install_attempts_spec ms m0)
        as (r & m' & new' & j & Hrun' & Hext' & Hin' & Hpr' & Hpa' & Ht' & Hf' & He');
      rewrite Hrun'
    end.
    assert (Hext2 : extends ([Say Warning] ++ new ++ [Say Info]) m (act (Say Warning) m1).2).
    { eapply extends_trans; [exact Hext1|]. by split. }
    exists r, m', (new' ++ [Say Warning] ++ new ++ [Say Info]), j.
    split; [reflexivity|]. split; [by eapply extends_trans|].
    split; [rewrite !installs_app, Hin, Hin'; cbn [installs omap app]; by rewrite ?app_nil_r|].
    split; [rewrite !probes_app, Hpr; cbn; lia|].
    split; [rewrite !sleeps_app, Hp; cbn; lia|].
    split; [|split; [exact Hf'|exact He']].
    intros Hr. eapply verified_after; [exact Hext2 | by apply Ht'].
  - destruct (He e eq_refl) as [-> [before Hfails]].
    eexists _, _, (new ++ [Say Info]), 0%nat. split; [reflexivity|].
    split; [done|]. split; [by rewrite !installs_app, Hin|].
    split; [rewrite !probes_app, Hpr; cbn; lia|].
    split; [rewrite !sleeps_app, Hp; cbn; lia|].
    split; [discriminate|]. split; [discriminate|].
    intros e [= <-]. split; [done|]. by eexists _, _.
Qed.

Lemma first_run_unique (after after' before before' : list action) (c c' : command) :
  runs after = [] -> runs after' = [] ->
  after ++ Run c :: before = after' ++ Run c' :: before' ->
  c = c' /\ before = before'.
Proof.
  revert after'. induction after as [|a after IH]; intros [|a' after'] Hq Hq' Heq;
    cbn in Heq.
  - by injection Heq as -> ->.
  - injection Heq as <- _. discriminate Hq'.
  - injection Heq as -> _. discriminate Hq.
  - injection Heq as <- Hrest. apply (IH after'); [| |done].
    + unfold runs in *. cbn in Hq. by destruct (is_run a).
    + unfold runs in *. cbn in Hq'. by destruct (is_run a).
Qed.

Lemma succeeded_last_inv (c c' : command) (after' before' : list action) (m m' : machine) :
  succeeded_last H c m m' ->
  done m' = after' ++ Run c' :: before' ++ done m ->
  runs after' = [] ->
  c = c' /\ respond H (before' ++ done m) c' = Exits 0.
Proof.
  intros (before & after & Hd & Hok & Hq) Hd' Hq'.
  rewrite Hd in Hd'.
  assert (Heq : after ++ Run c :: before = after' ++ Run c' :: before').
  { apply (app_inv_tail (done m)). by rewrite <- !app_assoc. }
  destruct (first_run_unique _ _ _ _ _ _ Hq Hq' Heq) as [-> ->]. by split.
Qed.

(** The upgrade through pip, inside its [try]: no exception leaves it. *)
Lemma pip_cases (m : machine) :
  let by_pip :=
    try_except
      (returncode <- run H PipUpgradeYtdlp ;;
       if returncode =? 0 then say Info ;;; ret true else say Debug ;;; ret false)
      (fun _ => say Debug ;;; ret false) in
  exists b l,
    by_pip m = (Done b, (act (Say l) (act (Run PipUpgradeYtdlp) m).2).2)
    /\ (b = true <-> respond H (done m) PipUpgradeYtdlp = Exits 0).
Proof.
  intros by_pip. subst by_pip. unfold run. srun.
  destruct (respond H (done m) PipUpgradeYtdlp) as [rc| | |]; srun.
  - destruct (Z.eqb_spec rc 0) as [->|Hrc]; srun.
    + by exists true, Info.
    + exists false, Debug. split; [done|]. split; [done|]. by intros [= ->].
  - by exists false, Debug.
  - by exists false, Debug.
  - by exists false, Debug.
Qed.

(** The self-update, inside its [try]. *)
Lemma self_update_cases (m : machine) :
  let by_itself :=
    try_except
      (returncode <- run H YtdlpSelfUpdate ;;
       if returncode =? 0 then say Info ;;; ret true else say Debug ;;; ret false)
      (fun e => match e with
                | TimeoutExpired | FileNotFoundError => say Debug ;;; ret false
                | OtherError => throw e
                end) in
  exists r m' after,
    by_itself m = (r, m') /\ extends (after ++ [Run YtdlpSelfUpdate]) m m'
    /\ runs after = [] /\ sleeps after = 0%nat
    /\ match respond H (done m) YtdlpSelfUpdate with
       | Exits rc => r = Done (rc =? 0)
       | TimesOut | NotFound => r = Done false
       | Fails => r = Throws OtherError
       end.
Proof.
  intros by_itself. subst by_itself. unfold run. srun.
  destruct (respond H (done m) YtdlpSelfUpdate) as [rc| | |]; srun.
  - destruct (rc =? 0); srun.
    + eexists _, _, [Say Info]. by repeat split.
    + eexists _, _, [Say Debug]. by repeat split.
  - eexists _, _, [Say Debug]. by repeat split.
  - eexists _, _, [Say Debug]. by repeat split.
  - eexists _, _, []. by repeat split.
Qed.

Lemma update_spec (m : machine) :
  exists r m' new,
    update_ytdlp H m = (r, m') /\ extends new m m'
    /\ sleeps new = 0%nat
    /\ (runs new = [Run PipUpgradeYtdlp]
        \/ runs new = [Run YtdlpSelfUpdate; Run PipUpgradeYtdlp]
           /\ respond H (Say Info :: done m) PipUpgradeYtdlp <> Exits 0)
    /\ (r = Done true <-> exists c, succeeded_last H c m m')
    /\ (forall e, r = Throws e ->
          e = OtherError /\ exists h, respond H h YtdlpSelfUpdate = Fails).
Proof.
  unfold update_ytdlp. unfold bind at 1, say at 1.
  cbn [act].
  set (m0 := {| done := Say Info :: done m;
                normalize_audio_env := normalize_audio_env m;
                ffmpeg_attr := ffmpeg_attr m |}).
  destruct (pip_cases m0) as (b & l & Hrun & Hb). cbn zeta in Hrun.
  unfold bind at 1. rewrite Hrun.
  set (m1 := (act (Say l) (act (Run PipUpgradeYtdlp) m0).2).2).
  assert (Hd1 : done m1 = [Say l] ++ Run PipUpgradeYtdlp :: [Say Info] ++ done m) by done.
  assert (He1 : normalize_audio_env m1 = normalize_audio_env m) by done.
  assert (Ha1 : ffmpeg_attr m1 = ffmpeg_attr m) by done.
  destruct b.
  - exists (Done true), m1, [Say l; Run PipUpgradeYtdlp; Say Info].
    split; [done|]. split; [by split|]. split; [done|]. split; [by left|].
    split; [|discriminate]. split; [|done]. intros _.
    exists PipUpgradeYtdlp, [Say Info], [Say l]. split; [done|]. split; [|done].
    by apply Hb.
  - assert (Hpip : respond H (Say Info :: done m) PipUpgradeYtdlp <> Exits 0).
    { intros Hr. by apply Hb in Hr. }
    destruct (self_update_cases m1) as (r & m2 & after & Hrun2 & Hext2 & Hq2 & Hpa & Hr2).
    cbn zeta in Hrun2. unfold bind at 1. rewrite Hrun2.
    assert (Hall : forall extra m3, extends extra m2 m3 -> runs extra = [] ->
              sleeps (extra ++ after) = 0%nat ->
              extends (extra ++ after ++ [Run YtdlpSelfUpdate; Say l; Run PipUpgradeYtdlp; Say Info]) m m3
              /\ sleeps (extra ++ after ++ [Run YtdlpSelfUpdate; Say l; Run PipUpgradeYtdlp; Say Info]) = 0%nat
              /\ runs (extra ++ after ++ [Run YtdlpSelfUpdate; Say l; Run PipUpgradeYtdlp; Say Info])
                 = [Run YtdlpSelfUpdate; Run PipUpgradeYtdlp]
              /\ ((exists c, succeeded_last H c m m3) ->
                  respond H (done m1) YtdlpSelfUpdate = Exits 0)).
    { intros extra m3 (Hd3 & He3 & Ha3) Hq3 Hp3. destruct Hext2 as (Hd2 & He2 & Ha2).
      split; [|split; [|split]].
      - split; [|split]; [|congruence|congruence].
        rewrite Hd3, Hd2, Hd1. by rewrite <- !app_assoc.
      - rewrite app_assoc, sleeps_app, Hp3. done.
      - rewrite !runs_app, Hq3, Hq2. done.
      - intros [c Hc].
        destruct (succeeded_last_inv c YtdlpSelfUpdate (extra ++ after)
                    [Say l; Run PipUpgradeYtdlp; Say Info] m m3 Hc) as [_ Hok].
        + rewrite Hd3, Hd2, Hd1. by rewrite <- !app_assoc.
        + by rewrite runs_app, Hq3, Hq2.
        + exact Hok. }
    destruct r as [[|]|e].
    + destruct (Hall [] m2) as (He & Hp & Hq & Hs); [apply extends_refl|done|done|].
      eexists _, _, _. split; [reflexivity|]. split; [exact He|]. split; [exact Hp|].
      split; [right; by split|]. split; [|discriminate]. split; [|done]. intros _.
      exists YtdlpSelfUpdate, [Say l; Run PipUpgradeYtdlp; Say Info], after.
      destruct Hext2 as (Hd2 & _). split; [by rewrite Hd2, Hd1, <- !app_assoc|].
      split; [|done]. change ([Say l; Run PipUpgradeYtdlp; Say Info] ++ done m) with (done m1).
      destruct (respond H (done m1) YtdlpSelfUpdate) as [rc| | |]; try discriminate.
      injection Hr2 as Hrc. symmetry in Hrc. apply Z.eqb_eq in Hrc. by subst.
    + destruct (Hall [Say Warning] (act (Say Warning) m2).2) as (He & Hp & Hq & Hs);
        [by split|done|done|].
      eexists _, _, _. split; [reflexivity|]. split; [exact He|]. split; [exact Hp|].
      split; [right; by split|]. split; [|discriminate]. split; [discriminate|].
      intros Hc. apply Hs in Hc. by rewrite Hc in Hr2.
    + destruct (Hall [] m2) as (He & Hp & Hq & Hs); [apply extends_refl|done|done|].
      eexists _, _, _. split; [reflexivity|]. split; [exact He|]. split; [exact Hp|].
      split; [right; by split|]. split.
      * split; [discriminate|]. intros Hc. apply Hs in Hc. by rewrite Hc in Hr2.
      * intros e' [= <-].
        destruct (respond H (done m1) YtdlpSelfUpdate) as [rc| | |] eqn:Hresp; try discriminate.
        split; [by injection Hr2|]. by eexists.
Qed.

Lemma setup_spec (m : machine) :
  exists r m' new,
    setup_system H m = (r, m') /\ done m' = new ++ done m
    /\ (r = Done tt ->
        exists b, ffmpeg_attr m' = Some b
          /\ if b then verified_between H m m'
                      /\ normalize_audio_env m' = normalize_audio_env m
             else normalize_audio_env m' = Some (py "false"))
    /\ (forall e, r = Throws e ->
          e = OtherError /\ exists h c, respond H h c = Fails).
Proof.
  unfold setup_system.
  destruct (update_spec m) as (r0 & m0 & new0 & Hrun0 & Hext0 & _ & _ & _ & He0).
  unfold bind at 1. rewrite Hrun0.
  destruct r0 as [b0|e0].
  2:{ exists (Throws e0), m0, new0. destruct Hext0 as (Hd0 & _).
      split; [done|]. split; [done|]. split; [discriminate|].
      intros e [= <-]. destruct (He0 e0 eq_refl) as [-> [h Hh]]. split; [done|]. by eexists _, _. }
  destruct (check_spec m0) as (r & m1 & new & j & Hrun & Hext & _ & _ & _ & Ht & _ & He).
  unfold bind at 1. rewrite Hrun.
  pose proof (extends_trans _ _ _ _ _ Hext0 Hext) as (Hd & Henv & Hattr).
  destruct r as [[|]|e]; srun.
  - eexists _, _, (new ++ new0). split; [reflexivity|]. split; [done|].
    split; [|discriminate]. intros _. exists true. split; [done|]. split; [|done].
    destruct (verified_after _ _ _ _ Hext0 (Ht eq_refl)) as (before & after & Hd' & Hok & Hq).
    by exists before, after.
  - eexists _, _, ([Say Warning] ++ new ++ new0). split; [reflexivity|].
    split; [cbn; by rewrite Hd|]. split; [|discriminate]. intros _. by exists false.
  - eexists _, _, (new ++ new0). split; [reflexivity|]. split; [done|].
    split; [discriminate|]. intros e' [= <-]. by apply He.
Qed.

(** X24: verify_ffmpeg_with_retry runs nothing but 'ffmpeg -version', at
    most max_retries times, and sleeps once fewer than it probes; it returns
    True only when the last command it ran was a probe that exited with 0,
    and False only after max_retries probes. *)
Theorem verify_ffmpeg_with_retry_bounded (max_retries delay : Z) (m : machine) :
  exists r m' new,
    verify_ffmpeg_with_retry H max_retries delay m = (r, m')
    /\ extends new m m'
    /\ runs new = replicate (probes new) (Run FfmpegVersion)
    /\ (probes new <= Z.to_nat max_retries)%nat
    /\ sleeps new = (probes new - 1)%nat
    /\ (r = Done true -> verified_between H m m')
    /\ (r = Done false -> probes new = Z.to_nat max_retries).
Proof.
  destruct (verify_spec max_retries delay m)
    as (r & m' & new & k & Hrun & Hext & Hruns & Hk & Hp & Ht & Hf & _).
  destruct (probes_only _ _ Hruns) as [Hpr _].
  exists r, m', new. rewrite Hpr. by repeat (split; [done|]).
Qed.

(** X25: On a machine where 'ffmpeg -version' never exits with 0 and never
    raises anything but a timeout or FileNotFoundError,
    verify_ffmpeg_with_retry returns False after exactly max_retries probes
    and max_retries - 1 sleeps. *)
Theorem verify_ffmpeg_with_retry_gives_up (max_retries delay : Z) (m : machine) :
  (forall before, respond H before FfmpegVersion <> Exits 0) ->
  (forall before, respond H before FfmpegVersion <> Fails) ->
  exists m' new,
    verify_ffmpeg_with_retry H max_retries delay m = (Done false, m')
    /\ extends new m m'
    /\ probes new = Z.to_nat max_retries
    /\ sleeps new = (Z.to_nat max_retries - 1)%nat.
Proof.
  intros Hnever Hsafe.
  destruct (verify_spec max_retries delay m)
    as (r & m' & new & k & Hrun & Hext & Hruns & Hk & Hp & Ht & Hf & He).
  destruct (probes_only _ _ Hruns) as [Hpr _].
  destruct r as [[|]|e].
  - destruct (Ht eq_refl) as (before & after & _ & Hok & _). by apply Hnever in Hok.
  - exists m', new. rewrite Hpr, Hp, (Hf eq_refl). by repeat (split; [done|]).
  - destruct (He e eq_refl) as [_ [before Hfails]]. by apply Hsafe in Hfails.
Qed.

(** X26: Whenever check_and_install_ffmpeg returns True, the last command it
    ran was 'ffmpeg -version' and it exited with 0: an installer reporting
    success is never enough. *)
Theorem check_and_install_ffmpeg_true_verified (m m' : machine) :
  check_and_install_ffmpeg H m = (Done true, m') ->
  verified_between H m m'.
Proof.
  intros Hrun.
  destruct (check_spec m) as (r & m1 & new & j & Hrun1 & _ & _ & _ & _ & Ht & _).
  rewrite Hrun in Hrun1. injection Hrun1 as <- <-. by apply Ht.
Qed.

(** X27: check_and_install_ffmpeg starts the installers in the order winget,
    scoop, chocolatey, each at most once; with j installers started it
    probes at most 1 + 3j times and sleeps at most 2j times; it returns
    False only after all three, raises nothing but an exception other than a
    timeout or FileNotFoundError, and starts no installer when the first
    probe exits with 0. *)
Theorem check_and_install_ffmpeg_installers (m : machine) :
  exists r m' new j,
    check_and_install_ffmpeg H m = (r, m') /\ extends new m m'
    /\ installs new = rev (take j [Winget; Scoop; Chocolatey])
    /\ (probes new <= 1 + 3 * j)%nat /\ (sleeps new <= 2 * j)%nat
    /\ (r = Done false -> j = 3%nat)
    /\ (forall e, r = Throws e -> e = OtherError)
    /\ (respond H (Say Info :: done m) FfmpegVersion = Exits 0 ->
        r = Done true /\ j = 0%nat).
Proof.
  destruct (respond H (Say Info :: done m) FfmpegVersion) as [[| |]| | |] eqn:Hresp.
  2-6: destruct (check_spec m)
         as (r & m' & new & j & Hrun & Hext & Hin & Hpr & Hpa & _ & Hf & He);
       exists r, m', new, j; repeat (split; [done|]);
       (split; [|discriminate]); intros e Hr; by apply He in Hr as [-> _].
  unfold check_and_install_ffmpeg. srun.
  rewrite verify_first_probe; [|lia|exact Hresp]. srun.
  eexists _, _, [Say Info; Say Info; Run FfmpegVersion; Say Info], 0%nat.
  split; [reflexivity|]. split; [by split|]. cbn.
  repeat split; try done; lia.
Qed.

(** X28: update_ytdlp never sleeps; it runs the pip upgrade once and 'yt-dlp
    -U' at most once after it, only when pip did not exit with 0; it returns
    True exactly when the last command it ran exited with 0; no failure of
    the pip run escapes, and an exception escapes only from 'yt-dlp -U',
    when it is neither a timeout nor FileNotFoundError. *)
Theorem update_ytdlp_outcome (m : machine) :
  exists r m' new,
    update_ytdlp H m = (r, m') /\ extends new m m'
    /\ sleeps new = 0%nat
    /\ (runs new = [Run PipUpgradeYtdlp]
        \/ runs new = [Run YtdlpSelfUpdate; Run PipUpgradeYtdlp]
           /\ respond H (Say Info :: done m) PipUpgradeYtdlp <> Exits 0)
    /\ (r = Done true <-> exists c, succeeded_last H c m m')
    /\ (forall e, r = Throws e ->
          e = OtherError /\ exists h, respond H h YtdlpSelfUpdate = Fails).
Proof. exact (update_spec m). Qed.

(** X29: Whenever _setup_system returns, ffmpeg_available is set; it is True
    only when the last command run was an 'ffmpeg -version' that exited with
    0, and then NORMALIZE_AUDIO is as it was; when it is False,
    NORMALIZE_AUDIO has been set to 'false'. *)
Theorem setup_system_outcome (m m' : machine) :
  setup_system H m = (Done tt, m') ->
  exists b, ffmpeg_attr m' = Some b
    /\ if b then verified_between H m m'
                /\ normalize_audio_env m' = normalize_audio_env m
       else normalize_audio_env m' = Some (py "false").
Proof.
  intros Hrun. destruct (setup_spec m) as (r & m1 & new & Hrun1 & _ & Hok & _).
  rewrite Hrun in Hrun1. injection Hrun1 as <- <-. by apply Hok.
Qed.

End OnHost.

Lemma normalization_off_without_ffmpeg (E : env) (m : machine) :
  ffmpeg_attr m = Some false -> normalization_on (configured E m) = false.
Proof. intros Hattr. unfold normalization_on, configured. cbn. by rewrite Hattr. Qed.

(** X30: On a machine where 'ffmpeg -version' never exits with 0, whenever
    _setup_system returns it has set ffmpeg_available to False and
    NORMALIZE_AUDIO to 'false', and every later _normalize_audio returns
    True after one debug log without touching the file. *)
Theorem setup_system_without_ffmpeg (H : host) (E : env) (m m' : machine)
    (file_path : path) (w : world) :
  (forall before, respond H before FfmpegVersion <> Exits 0) ->
  setup_system H m = (Done tt, m') ->
  ffmpeg_attr m' = Some false
  /\ normalize_audio_env m' = Some (py "false")
  /\ normalize_audio (configured E m') file_path w = (Ok (Some true), emit (ELog Debug) w).
Proof.
  intros Hnever Hrun.
  destruct (setup_spec H m) as (r & m1 & new & Hrun1 & _ & Hok & _).
  rewrite Hrun in Hrun1. injection Hrun1 as <- <-.
  destruct (Hok eq_refl) as ([|] & Hattr & Hb).
  { destruct Hb as [(before & after & _ & Hresp & _) _]. by apply Hnever in Hresp. }
  split; [done|]. split; [done|].
  apply normalize_audio_off. by apply normalization_off_without_ffmpeg.
Qed.

Lemma verify_ffmpeg_with_retry_gives_up_witness :
  exists m' new,
    verify_ffmpeg_with_retry bare 3 2 fresh = (Done false, m')
    /\ extends new fresh m'
    /\ probes new = 3%nat /\ sleeps new = 2%nat.
Proof.
  apply (verify_ffmpeg_with_retry_gives_up bare 3 2 fresh); intros before; discriminate.
Defined.

Lemma check_and_install_ffmpeg_true_verified_witness :
  check_and_install_ffmpeg with_winget fresh
  = (Done true, (check_and_install_ffmpeg with_winget fresh).2)
  /\ verified_between with_winget fresh (check_and_install_ffmpeg with_winget fresh).2.
Proof.
  split; [by vm_compute|].
  apply (check_and_install_ffmpeg_true_verified with_winget). by vm_compute.
Defined.

Lemma setup_system_outcome_witness :
  setup_system with_winget fresh = (Done tt, (setup_system with_winget fresh).2)
  /\ exists b, ffmpeg_attr (setup_system with_winget fresh).2 = Some b
       /\ if b then verified_between with_winget fresh (setup_system with_winget fresh).2
                    /\ normalize_audio_env (setup_system with_winget fresh).2
                       = normalize_audio_env fresh
          else normalize_audio_env (setup_system with_winget fresh).2 = Some (py "false").
Proof.
  split; [by vm_compute|].
  apply (setup_system_outcome with_winget fresh). by vm_compute.
Defined.

Lemma setup_system_without_ffmpeg_witness :
  setup_system bare fresh = (Done tt, (setup_system bare fresh).2)
  /\ ffmpeg_attr (setup_system bare fresh).2 = Some false
  /\ normalize_audio_env (setup_system bare fresh).2 = Some (py "false")
  /\ normalize_audio (configured Scenario.E_ok (setup_system bare fresh).2)
       (joinpath Scenario.mix (py "Artist - Song.mp3")) (Scenario.mix_with [py "Artist - Song.mp3"] [])
     = (Ok (Some true),
        emit (ELog Debug) (Scenario.mix_with [py "Artist - Song.mp3"] [])).
Proof.
  split; [by vm_compute|].
  apply (setup_system_without_ffmpeg bare Scenario.E_ok fresh);
    [intros before; discriminate | by vm_compute].
Defined.

End SetupFacts.

(** ** Concrete runs of the properties above *)

Section ConcreteRuns.

Import Scenario Example.

(** A run is its answer and the world it leaves. *)
Lemma run_with_answer {A B : Type} (x : A * B) (a : A) : fst x = a -> x = (a, snd x).
Proof. intros <-. by destruct x. Qed.

Lemma glob_with_answer d pat w r : fst (glob d pat w) = r -> glob d pat w = (r, w).
Proof.
  intros <-. destruct (glob d pat w) as [r w'] eqn:Hg.
  by rewrite (glob_same_world _ _ _ _ _ Hg).
Qed.

Lemma download_track_failure_leaves_download_witness :
  dirs (download_track E_webm (py "https://youtu.be/exact") mix (py "Artist - Song")
          (mix_with [] [])).2
  = dirs (mix_with [] [])
  /\ files (download_track E_webm (py "https://youtu.be/exact") mix (py "Artist - Song")
              (mix_with [] [])).2
     = files (snd (ydl_download E_webm (py "https://youtu.be/exact") mix
                     (temp_filename E_webm (py "https://youtu.be/exact")) (mix_with [] []))).
Proof.
  apply (download_track_failure_leaves_download E_webm (py "https://youtu.be/exact") mix
           (py "Artist - Song") (mix_with [] [])).
  apply run_with_answer. vm_compute; reflexivity.
Defined.

Lemma download_glob_matches_longer_number_witness :
  exists l,
    glob mix (temp_filename E_prefix_hashes first_url ++ py "*.mp3")
      (mix_with [py "temp_123.mp3"] [])
    = (Ok l, mix_with [py "temp_123.mp3"] [])
    /\ joinpath mix (temp_filename E_prefix_hashes second_url ++ py ".mp3") ∈ l.
Proof.
  apply (download_glob_matches_longer_number E_prefix_hashes first_url second_url (py "3")).
  - vm_compute; reflexivity.
  - apply elem_of_list_to_set. by left.
Defined.

Lemma normalize_audio_skipped_witness :
  normalize_audio E_no_ffmpeg (joinpath mix (py "Artist - Song.mp3"))
    (mix_with [py "Artist - Song.mp3"] [])
  = (Ok (Some true), emit (ELog Debug) (mix_with [py "Artist - Song.mp3"] [])).
Proof. apply (normalize_audio_skipped E_no_ffmpeg). reflexivity. Defined.


Lemma normalize_audio_true_means_replaced_witness :
  joinpath mix (py "Artist - Song.mp3")
    ∈ files (normalize_audio E_ok (joinpath mix (py "Artist - Song.mp3"))
               (mix_with [py "Artist - Song.mp3"] [])).2
  /\ norm_path (joinpath mix (py "Artist - Song.mp3"))
       ∉ files (normalize_audio E_ok (joinpath mix (py "Artist - Song.mp3"))
                  (mix_with [py "Artist - Song.mp3"] [])).2.
Proof.
  apply (normalize_audio_true_means_replaced E_ok (joinpath mix (py "Artist - Song.mp3"))
           (mix_with [py "Artist - Song.mp3"] [])).
  - reflexivity.
  - apply run_with_answer. vm_compute; reflexivity.
Defined.


Lemma process_track_blank_title_witness :
  process_track E_ok untitled mix (mix_with [] []) = (Raise ValueError, mix_with [] []).
Proof.
  apply (process_track_blank_title E_ok untitled mix). by repeat constructor.
Defined.

(** A property of the entries of a directory can be checked entry by entry. *)
Lemma entries_forall (d : path) (w : world) (P : path -> Prop) :
  Forall (fun q => parent q = parts d -> P q) (elements (files w ∪ dirs w)) ->
  forall q, entry_of d w q -> P q.
Proof.
  intros Hall q [Hq Hpar]. rewrite Forall_forall in Hall. apply Hall; [|done].
  apply elem_of_elements, elem_of_union. tauto.
Qed.


Lemma download_playlist_outcome_witness :
  fst (download_playlist E_no_results 3 playlist_url start)
  = if existsb blank_title [song] then Ok None else Ok (Some mix_zip).
Proof.
  apply (download_playlist_outcome E_no_results 3 playlist_url start
           (mkdir mix start).2
           (get_all_tracks E_no_results 3 (playlist_id_of playlist_url) 0 []
              (emit (ELog Info) (mkdir mix start).2)).2
           {| pl_name := py "Mix" |} [song]).
  - reflexivity.
  - apply run_with_answer. vm_compute; reflexivity.
  - apply run_with_answer. vm_compute; reflexivity.
Defined.

Lemma get_all_tracks_collects_pages_witness :
  get_all_tracks E_three_pages 3 (py "37i9dQ") 0 [] start
  = (Ok (concat (List.map (fun p => omap id (items p)) [page_one; page_two; page_three])),
     start).
Proof.
  apply (get_all_tracks_collects_pages E_three_pages (py "37i9dQ")
           [page_one; page_two; page_three] 3 start).
  - discriminate.
  - intros [|[|[|i]]] p; cbn; try discriminate; intros [= <-]; by split.
  - cbn. lia.
Defined.

Lemma download_playlist_listing_error_witness :
  download_playlist E_listing_fails 3 playlist_url start
  = (Ok None, emit (ELog Error) (emit (ELog Info) (mkdir mix start).2))
  /\ mix ∈ dirs (mkdir mix start).2.
Proof.
  apply (download_playlist_listing_error E_listing_fails 3 playlist_url start
           (mkdir mix start).2 {| pl_name := py "Mix" |}).
  - reflexivity.
  - apply run_with_answer. vm_compute; reflexivity.
  - reflexivity.
  - lia.
Defined.

Lemma create_zip_success_witness :
  exists w',
    create_zip mix mix_zip (mix_with [py "Artist - Song.mp3"; py "cover.jpg"] [])
    = (Ok tt, w')
    /\ mix_zip ∈ files w'
    /\ (forall q, under mix q = true -> (q ∉ files w') /\ (q ∉ dirs w'))
    /\ (forall q, under mix q = false ->
          (q ∈ files w' <->
             q ∈ files (mix_with [py "Artist - Song.mp3"; py "cover.jpg"] []) \/ q = mix_zip)
          /\ (q ∈ dirs w' <->
                q ∈ dirs (mix_with [py "Artist - Song.mp3"; py "cover.jpg"] [])))
    /\ (forall n, EZipWrite n ∈ trace w' <->
          EZipWrite n ∈ trace (mix_with [py "Artist - Song.mp3"; py "cover.jpg"] [])
          \/ exists q, entry_of mix (mix_with [py "Artist - Song.mp3"; py "cover.jpg"] []) q
                       /\ mp3_any_case (name q) = true /\ name q = n).
Proof.
  apply (create_zip_success mix mix_zip
           (mix_with [py "Artist - Song.mp3"; py "cover.jpg"] [])).
  - reflexivity.
  - cbn. set_solver.
  - by vm_compute.
  - right. exists downloads. split; [cbn; set_solver | reflexivity].
  - vm_compute; reflexivity.
  - apply (entries_forall mix (mix_with [py "Artist - Song.mp3"; py "cover.jpg"] [])
             (fun q => mp3_any_case (name q) = true ->
                q ∈ files (mix_with [py "Artist - Song.mp3"; py "cover.jpg"] [])
                /\ (q ∉ dirs (mix_with [py "Artist - Song.mp3"; py "cover.jpg"] []))
                /\ Fnmatch.fnmatchcase (name q) (py "*.mp3") = true)).
    apply (bool_decide_unpack _). vm_compute. exact I.
Defined.

Lemma create_zip_blank_playlist_name_witness :
  exists w',
    create_zip (joinpath (downloads_dir E_ok) (normalize_filename (pl_name unnamed)))
      (joinpath (downloads_dir E_ok) (normalize_filename (pl_name unnamed) ++ py ".zip"))
      start
    = (Ok tt, w')
    /\ (joinpath (downloads_dir E_ok) (normalize_filename (pl_name unnamed) ++ py ".zip")
          ∉ files w')
    /\ (downloads_dir E_ok ∉ dirs w')
    /\ (forall q, under (downloads_dir E_ok) q = true -> q ∉ files w').
Proof.
  apply (create_zip_blank_playlist_name E_ok unnamed start).
  - by repeat constructor.
  - reflexivity.
  - cbn. set_solver.
  - by vm_compute.
Defined.

Lemma playlist_id_of_url_witness :
  playlist_id_of (py "https://open.spotify.com/playlist" ++ [47%N] ++ py "37i9dQ"
                    ++ [63%N] ++ py "si=abc") = py "37i9dQ"
  /\ playlist_id_of (py "https://open.spotify.com/playlist" ++ [47%N] ++ py "37i9dQ")
     = py "37i9dQ".
Proof.
  apply (playlist_id_of_url (py "https://open.spotify.com/playlist") (py "37i9dQ")
           (py "si=abc")); apply (bool_decide_unpack _); vm_compute; exact I.
Defined.

End ConcreteRuns.
